(** * The channel invite modal (channel_invite_modal.tsx)

    A shallow embedding of the class component [ChannelInviteModal]:
    the option aggregation [getOptions], the selection handlers
    ([addValue], [handleSubmit], [handleInviteError], [onHide]) and the
    debounced [search].

    Conventions of the embedding.
    - JavaScript objects are compared with [===], [indexOf] and [Set] by
      reference.  A user or a group is therefore a reference ([ref]) into a
      [Heap], and two references may hold objects with equal fields.
    - JavaScript strings are sequences of code units; the model keeps the
      code units below 256 (Rocq's [string]).
    - [setState] queues an updater; the queue is applied to [this.state]
      when the running callback returns ([event]).
    - Timers and external action calls live in an explicit environment
      [Env]; time is a logical clock counted in milliseconds. *)

From Stdlib Require Import ZArith String Ascii.
From stdpp Require Import base list strings gmap sorting.

Local Open Scope string_scope.
Local Open Scope list_scope.

(** ** Data: users, groups and the heap of objects *)

Definition ref := nat.

Module UserProfile.
Record t := mk {
  id : string;
  username : string;
  first_name : string;
  last_name : string;
  nickname : string;
  delete_at : Z;
  roles : string;
  is_bot : bool;
  last_picture_update : Z;
}.
End UserProfile.

Module Group.
Record t := mk {
  id : string;
  name : string;
  display_name : string;
  member_ids : option (list string);
  member_count : Z;
}.
End Group.

Module TeamMembership.
Record t := mk {
  team_id : string;
  user_id : string;
  roles : string;
  delete_at : Z;
}.
End TeamMembership.

Module Channel.
Record t := mk {
  id : string;
  team_id : string;
  display_name : string;
  group_constrained : bool;
}.
End Channel.

(** The object store: what each reference holds. *)
Record Heap := {
  user_at : ref -> UserProfile.t;
  group_at : ref -> Group.t;
}.

(** [UserProfileValue | GroupValue]: the source tells the two apart with
    ['username' in value]; here the tag of the reference does. *)
Inductive OptionValue :=
| UserProfileValue (r : ref)
| GroupValue (r : ref).

#[global] Instance OptionValue_eq_dec : EqDecision OptionValue.
Proof. solve_decision. Defined.

Definition option_id (h : Heap) (v : OptionValue) : string :=
  match v with
  | UserProfileValue r => UserProfile.id (user_at h r)
  | GroupValue r => Group.id (group_at h r)
  end.

Definition option_object (h : Heap) (v : OptionValue) : UserProfile.t + Group.t :=
  match v with
  | UserProfileValue r => inl (user_at h r)
  | GroupValue r => inr (group_at h r)
  end.

(** ** JavaScript built-ins used by the component *)

Section Builtins.
Context {A : Type} `{EqDecision A}.

(** [Set.prototype.add]: a [Set] keeps its members in insertion order and
    ignores a value it already has. *)
Definition Set_add (s : list A) (x : A) : list A :=
  if decide (x ∈ s) then s else s ++ [x].

(** [new Set(iterable)]. *)
Definition new_Set (iterable : list A) : list A :=
  foldl Set_add [] iterable.

(** [Set.prototype.has]. *)
Definition Set_has (s : list A) (x : A) : bool := bool_decide (x ∈ s).

(** [Array.from(set)]: the members in insertion order. *)
Definition Array_from (s : list A) : list A := s.

(** [Array.prototype.indexOf]: the first index holding [x], or -1. *)
Fixpoint indexOf_from (i : Z) (l : list A) (x : A) : Z :=
  match l with
  | [] => (-1)%Z
  | y :: l' => if decide (y = x) then i else indexOf_from (i + 1)%Z l' x
  end.

Definition indexOf (l : list A) (x : A) : Z := indexOf_from 0%Z l x.

(** [Array.prototype.sort(cmp)]: a stable sort; [x] goes before the first
    [y] of the sorted tail with [cmp x y <= 0]. *)
Fixpoint sort_insert (cmp : A -> A -> Z) (x : A) (l : list A) : list A :=
  match l with
  | [] => [x]
  | y :: l' => if (cmp x y <=? 0)%Z then x :: l else y :: sort_insert cmp x l'
  end.

Definition Array_sort (cmp : A -> A -> Z) (l : list A) : list A :=
  foldr (sort_insert cmp) [] l.
End Builtins.

(** Iterating a string yields its code points, each as a string. *)
Definition code_points (s : string) : list string :=
  (fun c => String c EmptyString) <$> list_ascii_of_string s.

(** The arguments the component passes to [new Set(...)]: an id or an
    array of ids.  The constructor reads its first argument only, and
    iterates it. *)
Inductive SetArg :=
| ArgString (s : string)
| ArgArray (a : list string).

Definition Set_constructor (args : list SetArg) : list string :=
  match args with
  | [] => new_Set []
  | ArgString s :: _ => new_Set (code_points s)
  | ArgArray a :: _ => new_Set a
  end.

(** [String.prototype.trim]: white space and line terminators are removed
    at both ends (TAB, LF, VT, FF, CR, SP and NBSP among the code units
    below 256). *)
Definition is_white_space (c : ascii) : bool :=
  let n := nat_of_ascii c in
  (Nat.leb 9 n && Nat.leb n 13) || Nat.eqb n 32 || Nat.eqb n 160.

Fixpoint trim_start (l : list ascii) : list ascii :=
  match l with
  | c :: l' => if is_white_space c then trim_start l' else l
  | [] => []
  end.

Definition trim (s : string) : string :=
  string_of_list_ascii
    (rev (trim_start (rev (trim_start (list_ascii_of_string s))))).

(** [Object.values] of a [Record<string, V>] kept in property order. *)
Definition Object_values {V : Type} (o : list (string * V)) : list V := snd <$> o.

(** ** Props and state *)

Definition USERS_PER_PAGE : nat := 50.
Definition USERS_FROM_DMS : nat := 10.
Definition MAX_USERS : nat := 25.

Record Props := {
  profilesNotInCurrentChannel : list ref;
  profilesInCurrentChannel : list ref;
  profilesNotInCurrentTeam : list ref;
  profilesFromRecentDMs : list ref;
  membersInTeam : option (gmap string TeamMembership.t);
  channel : Channel.t;
  skipCommit : bool;
  onAddCallback : bool;
  excludeUsers : option (list (string * ref));
  includeUsers : option (list (string * ref));
  groups : list ref;
}.

Record State := {
  values : list ref;
  optionValues : list OptionValue;
  usersNotInTeam : list ref;
  guestsNotInTeam : list ref;
  term : string;
  show : bool;
  saving : bool;
  loadingUsers : bool;
  inviteError : option string;
}.

(** The state set by the constructor. *)
Definition initial_state : State := {|
  values := [];
  optionValues := [];
  usersNotInTeam := [];
  guestsNotInTeam := [];
  term := "";
  show := true;
  saving := false;
  loadingUsers := true;
  inviteError := None;
|}.

(** ** Imported helpers

    [filterProfilesStartingWithTerm], [isGuest] (mattermost-redux
    user_utils), [filterGroupsMatchingTerm] (group_utils),
    [sortUsersAndGroups] (utils/utils) and
    [Constants.SEARCH_TIMEOUT_MILLISECONDS] are imported by the component;
    their definitions are taken as parameters. *)
Record Imports := {
  profileStartsWithTerm : UserProfile.t -> string -> bool;
  groupMatchesTerm : Group.t -> string -> bool;
  sortUsersAndGroups : UserProfile.t + Group.t -> UserProfile.t + Group.t -> Z;
  isGuest : string -> bool;
  SEARCH_TIMEOUT_MILLISECONDS : nat;
}.

Section Aggregation.
Variable imp : Imports.
Variable h : Heap.

(** Modelled from the spec: [filterProfilesStartingWithTerm] is not in
    the component's file; the spec describes it as a prefix-match filter
    of the given profiles, so it keeps, in order, the profiles the
    imported predicate accepts. *)
Definition filterProfilesStartingWithTerm (us : list ref) (t : string) : list ref :=
  filter (fun r => profileStartsWithTerm imp (user_at h r) t = true) us.

(** Modelled from the spec: [filterGroupsMatchingTerm] is not in the
    component's file; the spec describes it as a filter of the groups by
    a match on their name. *)
Definition filterGroupsMatchingTerm (gs : list ref) (t : string) : list ref :=
  filter (fun r => groupMatchesTerm imp (group_at h r) t = true) gs.

Definition user_ids (us : list ref) : list string :=
  (fun r => UserProfile.id (user_at h r)) <$> us.

(** The [Set] built at the top of [getOptions]. *)
Definition excludedAndNotInTeamUserIds (p : Props) : list string :=
  match excludeUsers p with
  | Some ex =>
      Set_constructor
        ((ArgString <$> user_ids (profilesNotInCurrentTeam p))
           ++ [ArgArray (user_ids (Object_values ex))])
  | None => Set_constructor [ArgArray (user_ids (profilesNotInCurrentTeam p))]
  end.

Definition filterOutDeletedAndExcludedAndNotInTeamUsers
    (us : list ref) (excludeUserIds : list string) : list ref :=
  filter (fun r => UserProfile.delete_at (user_at h r) = 0%Z
                   /\ Set_has excludeUserIds (UserProfile.id (user_at h r)) = false) us.

(** [users] after the [includeUsers] branch. *)
Definition getOptions_users (p : Props) (s : State) : list OptionValue :=
  let users0 :=
    UserProfileValue <$>
      filterOutDeletedAndExcludedAndNotInTeamUsers
        (filterProfilesStartingWithTerm
           (profilesNotInCurrentChannel p ++ profilesInCurrentChannel p) (term s))
        (excludedAndNotInTeamUserIds p) in
  match includeUsers p with
  | Some inc => users0 ++ (UserProfileValue <$> Object_values inc)
  | None => users0
  end.

Definition getOptions_dmUsers (p : Props) (s : State) : list OptionValue :=
  UserProfileValue <$>
    take USERS_FROM_DMS
      (filterOutDeletedAndExcludedAndNotInTeamUsers
         (filterProfilesStartingWithTerm (profilesFromRecentDMs p) (term s))
         (excludedAndNotInTeamUserIds p)).

Definition getOptions_groupsAndUsers (p : Props) (s : State) : list OptionValue :=
  Array_sort
    (fun a b => sortUsersAndGroups imp (option_object h a) (option_object h b))
    ((GroupValue <$> filterGroupsMatchingTerm (groups p) (term s))
       ++ getOptions_users p s).

Definition getOptions (p : Props) (s : State) : list OptionValue :=
  let optionValues :=
    take MAX_USERS (getOptions_dmUsers p s ++ getOptions_groupsAndUsers p s) in
  Array_from (new_Set optionValues).
End Aggregation.

(** ** Effects: [setState], external calls and timers *)

(** The options object of [searchAssociatedGroupsForReference]. *)
Record GroupSearachParams := {
  q : string;
  filter_allow_reference : bool;
  page : nat;
  per_page : nat;
  include_member_count : bool;
  include_member_ids : bool;
}.

(** The calls the handlers make on [props.actions] and [props.onAddCallback]. *)
Inductive Call :=
| addUsersToChannel (channelId : string) (userIds : list string)
| loadStatusesForProfilesList (us : list ref)
| searchProfiles (t : string) (team_id not_in_channel_id : string) (group_constrained : bool)
| searchAssociatedGroupsForReference
    (prefix teamId channelId : string) (opts : GroupSearachParams)
| onAddCallback_call (userProfiles : list ref).

(** What [addUsersToChannel] resolves with. *)
Record ServerError := { message : string }.
Record ActionResult := { error : option ServerError }.

(** A pending [window.setTimeout] of [search]: the callback closes over
    [term] only. *)
Record Timer := {
  timer_id : nat;
  timer_due : nat;
  timer_term : string;
}.

(** The instance field [searchTimeoutId], the browser's timers and clock,
    and the log of external calls. *)
Record Env := {
  searchTimeoutId : nat;
  timers : list Timer;
  next_timer_id : nat;
  now : nat;
  calls : list Call;
}.

Definition initial_env : Env := {|
  searchTimeoutId := 0;
  timers := [];
  next_timer_id := 1;
  now := 0;
  calls := [];
|}.

(** A callback reads [this.state] as committed, queues [setState] updaters
    and acts on the environment. *)
Definition M (A : Type) : Type := State -> Env -> A * list (State -> State) * Env.

Definition ret {A} (a : A) : M A := fun _ e => (a, [], e).

Definition bind {A B} (m : M A) (k : A -> M B) : M B :=
  fun s e =>
    let '(a, us, e1) := m s e in
    let '(b, us', e2) := k a s e1 in
    (b, us ++ us', e2).

Notation "x <- m ;; k" := (bind m (fun x => k))
  (at level 100, m at next level, right associativity).
Notation "m ;; k" := (bind m (fun _ => k))
  (at level 100, right associativity).

Definition this_state : M State := fun s e => (s, [], e).
Definition setState (f : State -> State) : M unit := fun _ e => (tt, [f], e).
Definition get_env : M Env := fun _ e => (e, [], e).
Definition put_env (e : Env) : M unit := fun _ _ => (tt, [], e).

Definition call (c : Call) : M unit :=
  e <- get_env ;;
  put_env {| searchTimeoutId := searchTimeoutId e; timers := timers e;
             next_timer_id := next_timer_id e; now := now e;
             calls := calls e ++ [c] |}.

Definition clearTimeout (id : nat) : M unit :=
  e <- get_env ;;
  put_env {| searchTimeoutId := searchTimeoutId e;
             timers := filter (fun t => timer_id t <> id) (timers e);
             next_timer_id := next_timer_id e; now := now e; calls := calls e |}.

Definition setTimeout (t : string) (delay : nat) : M nat :=
  e <- get_env ;;
  put_env {| searchTimeoutId := searchTimeoutId e;
             timers := timers e ++ [{| timer_id := next_timer_id e;
                                       timer_due := now e + delay;
                                       timer_term := t |}];
             next_timer_id := S (next_timer_id e); now := now e; calls := calls e |} ;;
  ret (next_timer_id e).

Definition set_searchTimeoutId (id : nat) : M unit :=
  e <- get_env ;;
  put_env {| searchTimeoutId := id; timers := timers e;
             next_timer_id := next_timer_id e; now := now e; calls := calls e |}.

(** The component between two callbacks. *)
Definition World : Type := State * Env.

(** Running one callback: the queued updaters are applied in order. *)
Definition event (m : M unit) (w : World) : World :=
  let '(_, us, e) := m w.1 w.2 in
  (foldl (fun s f => f s) w.1 us, e).

(** The partial states given to [setState]. *)
Definition set_values (v : list ref) (s : State) : State :=
  {| values := v; optionValues := optionValues s; usersNotInTeam := usersNotInTeam s;
     guestsNotInTeam := guestsNotInTeam s; term := term s; show := show s;
     saving := saving s; loadingUsers := loadingUsers s; inviteError := inviteError s |}.

Definition set_usersNotInTeam (v : list ref) (s : State) : State :=
  {| values := values s; optionValues := optionValues s; usersNotInTeam := v;
     guestsNotInTeam := guestsNotInTeam s; term := term s; show := show s;
     saving := saving s; loadingUsers := loadingUsers s; inviteError := inviteError s |}.

Definition set_guestsNotInTeam (v : list ref) (s : State) : State :=
  {| values := values s; optionValues := optionValues s; usersNotInTeam := usersNotInTeam s;
     guestsNotInTeam := v; term := term s; show := show s;
     saving := saving s; loadingUsers := loadingUsers s; inviteError := inviteError s |}.

Definition set_term (t : string) (s : State) : State :=
  {| values := values s; optionValues := optionValues s; usersNotInTeam := usersNotInTeam s;
     guestsNotInTeam := guestsNotInTeam s; term := t; show := show s;
     saving := saving s; loadingUsers := loadingUsers s; inviteError := inviteError s |}.

Definition set_show (b : bool) (s : State) : State :=
  {| values := values s; optionValues := optionValues s; usersNotInTeam := usersNotInTeam s;
     guestsNotInTeam := guestsNotInTeam s; term := term s; show := b;
     saving := saving s; loadingUsers := loadingUsers s; inviteError := inviteError s |}.

Definition set_saving (b : bool) (s : State) : State :=
  {| values := values s; optionValues := optionValues s; usersNotInTeam := usersNotInTeam s;
     guestsNotInTeam := guestsNotInTeam s; term := term s; show := show s;
     saving := b; loadingUsers := loadingUsers s; inviteError := inviteError s |}.

Definition set_loadingUsers (b : bool) (s : State) : State :=
  {| values := values s; optionValues := optionValues s; usersNotInTeam := usersNotInTeam s;
     guestsNotInTeam := guestsNotInTeam s; term := term s; show := show s;
     saving := saving s; loadingUsers := b; inviteError := inviteError s |}.

Definition set_inviteError (o : option string) (s : State) : State :=
  {| values := values s; optionValues := optionValues s; usersNotInTeam := usersNotInTeam s;
     guestsNotInTeam := guestsNotInTeam s; term := term s; show := show s;
     saving := saving s; loadingUsers := loadingUsers s; inviteError := o |}.

(** ** The handlers *)

Section Handlers.
Variable imp : Imports.
Variable h : Heap.
Variable p : Props.

(** [!this.props.membersInTeam || !this.props.membersInTeam[profile.id]] *)
Definition not_in_team (profile : ref) : bool :=
  match membersInTeam p with
  | None => true
  | Some m =>
      match m !! UserProfile.id (user_at h profile) with
      | None => true
      | Some _ => false
      end
  end.

Definition addValue (value : OptionValue) : M unit :=
  s <- this_state ;;
  let values0 := values s in
  let usersNotInTeam0 := usersNotInTeam s in
  let guestsNotInTeam0 := guestsNotInTeam s in
  match value with
  | UserProfileValue profile =>
      if not_in_team profile then
        if isGuest imp (UserProfile.roles (user_at h profile)) then
          if (indexOf guestsNotInTeam0 profile =? -1)%Z then
            setState (fun prevState =>
              set_guestsNotInTeam (guestsNotInTeam prevState ++ [profile]) prevState)
          else ret tt
        else
          if (indexOf usersNotInTeam0 profile =? -1)%Z then
            setState (fun prevState =>
              set_usersNotInTeam (usersNotInTeam prevState ++ [profile]) prevState)
          else ret tt
      else
        if (indexOf values0 profile =? -1)%Z then
          setState (fun prevState => set_values (values prevState ++ [profile]) prevState)
        else ret tt
  | GroupValue _ => ret tt
  end.

Definition clearValuesNotInTeam : M unit :=
  setState (fun s => set_guestsNotInTeam [] (set_usersNotInTeam [] s)).

Definition onHide : M unit :=
  setState (set_show false) ;;
  call (loadStatusesForProfilesList (profilesNotInCurrentChannel p)) ;;
  call (loadStatusesForProfilesList (profilesInCurrentChannel p)).

Definition handleInviteError (err : option ServerError) : M unit :=
  match err with
  | Some e => setState (fun s => set_inviteError (Some (message e)) (set_saving false s))
  | None => ret tt
  end.

Definition handleDelete (vs : list ref) : M unit :=
  setState (set_values vs).

Definition setUsersLoadingState (loadingState : bool) : M unit :=
  setState (set_loadingUsers loadingState).

Definition handleSubmit : M unit :=
  s <- this_state ;;
  let userIds := (fun v => UserProfile.id (user_at h v)) <$> values s in
  if (length userIds =? 0)%nat then ret tt
  else if skipCommit p && onAddCallback p then
    call (onAddCallback_call (values s)) ;;
    setState (fun s => set_inviteError None (set_saving false s)) ;;
    onHide
  else
    setState (set_saving true) ;;
    call (addUsersToChannel (Channel.id (channel p)) userIds).

(** The callback [handleSubmit] gives to [addUsersToChannel(...).then]. *)
Definition addUsersToChannel_then (result : ActionResult) : M unit :=
  match error result with
  | Some e => handleInviteError (Some e)
  | None =>
      setState (fun s => set_inviteError None (set_saving false s)) ;;
      onHide
  end.

Definition search (searchTerm : string) : M unit :=
  let term := trim searchTerm in
  id0 <- (e <- get_env ;; ret (searchTimeoutId e)) ;;
  clearTimeout id0 ;;
  setState (set_term term) ;;
  id <- setTimeout term (SEARCH_TIMEOUT_MILLISECONDS imp) ;;
  set_searchTimeoutId id.

(** The callback [search] gives to [window.setTimeout], up to its
    [await]: both lookups are dispatched when the timer fires. *)
Definition search_timeout (term : string) : M unit :=
  if decide (term = "") then ret tt
  else
    call (searchProfiles term (Channel.team_id (channel p)) (Channel.id (channel p))
            (Channel.group_constrained (channel p))) ;;
    call (searchAssociatedGroupsForReference term (Channel.team_id (channel p))
            (Channel.id (channel p))
            {| q := term; filter_allow_reference := true; page := 0; per_page := 100;
               include_member_count := true; include_member_ids := true |}).

(** The two lookups of [search_timeout], as the log records them. *)
Definition search_dispatch (term : string) : list Call :=
  [searchProfiles term (Channel.team_id (channel p)) (Channel.id (channel p))
     (Channel.group_constrained (channel p));
   searchAssociatedGroupsForReference term (Channel.team_id (channel p))
     (Channel.id (channel p))
     {| q := term; filter_allow_reference := true; page := 0; per_page := 100;
        include_member_count := true; include_member_ids := true |}].

(** The rest of that callback, once both lookups have resolved. *)
Definition search_resolved : M unit := setUsersLoadingState false.

(** Timers that are due fire in the order they were set, each as a
    callback of its own. *)
Definition fire_due (w : World) : World :=
  let e := w.2 in
  let due := filter (fun t => timer_due t <= now e) (timers e) in
  let e' := {| searchTimeoutId := searchTimeoutId e;
               timers := filter (fun t => ~ timer_due t <= now e) (timers e);
               next_timer_id := next_timer_id e; now := now e; calls := calls e |} in
  foldl (fun w t => event (search_timeout (timer_term t)) w) (w.1, e') due.

(** One millisecond passes. *)
Definition tick (w : World) : World :=
  let e := w.2 in
  fire_due (w.1, {| searchTimeoutId := searchTimeoutId e; timers := timers e;
                    next_timer_id := next_timer_id e; now := S (now e);
                    calls := calls e |}).

Fixpoint advance (n : nat) (w : World) : World :=
  match n with
  | O => w
  | S n' => advance n' (tick w)
  end.

(** The callbacks React, the browser and the resolved promises deliver to
    the mounted component, and the worlds they lead to. *)
Inductive Callback :=
| on_add (value : OptionValue)
| on_delete (vs : list ref)
| on_clear_not_in_team
| on_submit
| on_add_users_resolved (result : ActionResult)
| on_input (searchTerm : string)
| on_search_resolved
| on_hide
| on_millisecond.

Definition run (c : Callback) (w : World) : World :=
  match c with
  | on_add value => event (addValue value) w
  | on_delete vs => event (handleDelete vs) w
  | on_clear_not_in_team => event clearValuesNotInTeam w
  | on_submit => event handleSubmit w
  | on_add_users_resolved result => event (addUsersToChannel_then result) w
  | on_input searchTerm => event (search searchTerm) w
  | on_search_resolved => event search_resolved w
  | on_hide => event onHide w
  | on_millisecond => tick w
  end.

Inductive reachable : World -> Prop :=
| reachable_initial : reachable (initial_state, initial_env)
| reachable_run c w : reachable w -> reachable (run c w).
End Handlers.

(** ** What the claims speak about *)

(** The exclusion set the component is meant to use: the ids of
    [profilesNotInCurrentTeam] together with the ids of the users of
    [excludeUsers]. *)
Definition exclusion_ids (h : Heap) (p : Props) : list string :=
  user_ids h (profilesNotInCurrentTeam p)
    ++ match excludeUsers p with
       | Some ex => user_ids h (Object_values ex)
       | None => []
       end.

(** The users forced into the list by [includeUsers]. *)
Definition include_overrides (p : Props) : list ref :=
  match includeUsers p with
  | Some inc => Object_values inc
  | None => []
  end.

(** Every object the pools of [p] can hand to [getOptions]. *)
Definition input_options (p : Props) : list OptionValue :=
  (UserProfileValue <$>
     (profilesNotInCurrentChannel p ++ profilesInCurrentChannel p
        ++ profilesFromRecentDMs p ++ include_overrides p))
    ++ (GroupValue <$> groups p).

(** No two distinct objects of the pools carry the same id. *)
Definition one_object_per_id (h : Heap) (p : Props) : Prop :=
  forall a b, a ∈ input_options p -> b ∈ input_options p ->
    option_id h a = option_id h b -> a = b.

(** How often the object [r] occurs in an array. *)
Definition occurrences (r : ref) (l : list ref) : nat :=
  length (filter (fun x => x = r) l).

(** Every pending timer is the one [searchTimeoutId] names. *)
Definition timers_tracked (e : Env) : Prop :=
  forall t, t ∈ timers e -> timer_id t = searchTimeoutId e.

(** ** Sample data *)

Definition sample_user (i : string) (d : Z) (r : string) : UserProfile.t :=
  UserProfile.mk i i "" "" "" d r false 0.

Definition sample_name (o : UserProfile.t + Group.t) : string :=
  match o with
  | inl u => UserProfile.username u
  | inr g => Group.name g
  end.

Definition sample_imports : Imports := {|
  profileStartsWithTerm := fun u t => String.prefix t (UserProfile.username u);
  groupMatchesTerm := fun g t => String.prefix t (Group.name g);
  sortUsersAndGroups := fun a b =>
    match String.compare (sample_name a) (sample_name b) with
    | Lt => (-1)%Z
    | Eq => 0%Z
    | Gt => 1%Z
    end;
  isGuest := fun r => String.eqb r "system_guest";
  SEARCH_TIMEOUT_MILLISECONDS := 100;
|}.

(** Objects 1 and 2 are two copies of the user "u1"; 3 is deactivated;
    4 is a guest. *)
Definition sample_heap : Heap := {|
  user_at := fun r =>
    match r with
    | 0 => sample_user "ab" 0 "system_user"
    | 1 => sample_user "u1" 0 "system_user"
    | 2 => sample_user "u1" 0 "system_user"
    | 3 => sample_user "u3" 5 "system_user"
    | 4 => sample_user "u4" 0 "system_guest"
    | _ => sample_user "u5" 0 "system_user"
    end;
  group_at := fun _ => Group.mk "g1" "devs" "Developers" None 0;
|}.

Definition sample_channel : Channel.t := Channel.mk "c1" "t1" "Town Square" false.

Definition sample_props (notInChannel notInTeam dms : list ref)
    (exclude include : option (list (string * ref))) (gs : list ref) : Props := {|
  profilesNotInCurrentChannel := notInChannel;
  profilesInCurrentChannel := [];
  profilesNotInCurrentTeam := notInTeam;
  profilesFromRecentDMs := dms;
  membersInTeam := Some {[ "u1" := TeamMembership.mk "t1" "u1" "team_user" 0 ]};
  channel := sample_channel;
  skipCommit := false;
  onAddCallback := false;
  excludeUsers := exclude;
  includeUsers := include;
  groups := gs;
|}.

(** The props as [defaultProps] leaves them, with empty pools. *)
Definition plain_props : Props := sample_props [] [] [] (Some []) (Some []) [].


(** The same user "u1" reaches the modal as two objects: one among the
    recent DMs, one among the profiles not in the channel. *)
Definition props_two_copies : Props :=
  sample_props [1] [] [2] (Some []) (Some []) [].

(** The deactivated user 3 is forced in by the host. *)
Definition props_deleted_override : Props :=
  sample_props [] [] [] (Some []) (Some [("u3", 3)]) [].


(** Users 0, 1 and 3 can be added, 4 is a recent DM. *)
Definition props_pools : Props :=
  sample_props [0; 1; 3] [] [4] (Some []) (Some []) [].

(** User 0 is outside the team and among the profiles not in the channel. *)
Definition props_not_in_team : Props :=
  sample_props [0; 1] [0] [] (Some []) (Some []) [].

(** A state in which the object 1 is selected twice. *)
Definition state_selected_twice : State := set_values [1; 1] initial_state.

(** ** The rest of the component

    The handlers of the team-invite banner ([removeInvitedUsers],
    [removeUsersFromValuesNotInTeam]), [componentDidUpdate], the error
    label of [render], and the popover heading [ProfilePopoverFullName]. *)

#[global] Instance UserProfile_eq_dec : EqDecision UserProfile.t.
Proof. solve_decision. Defined.

#[global] Instance Group_eq_dec : EqDecision Group.t.
Proof. solve_decision. Defined.

(** [Array.prototype.splice(start, 1)]: a negative [start] counts from the
    end, a [start] past the end removes nothing. *)
Definition splice_one {A : Type} (l : list A) (start : Z) : list A :=
  let len := Z.of_nat (length l) in
  let from := if (start <? 0)%Z then Z.max (len + start) 0 else Z.min start len in
  delete (Z.to_nat from) l.

Definition set_optionValues (v : list OptionValue) (s : State) : State :=
  {| values := values s; optionValues := v; usersNotInTeam := usersNotInTeam s;
     guestsNotInTeam := guestsNotInTeam s; term := term s; show := show s;
     saving := saving s; loadingUsers := loadingUsers s; inviteError := inviteError s |}.

(** The call [componentDidUpdate] makes on [props.actions]. *)
Inductive Fetch :=
| getTeamMembersByIds (teamId : string) (userIds : list string).

Section Banner.
Variable imp : Imports.
Variable h : Heap.
Variable p : Props.

(** The [for] loop of [removeInvitedUsers], on its local copy of
    [usersNotInTeam]. *)
Fixpoint removeInvitedUsers_loop (profiles : list ref)
    (usersNotInTeam0 : list ref) : M (list ref) :=
  match profiles with
  | [] => ret usersNotInTeam0
  | user :: rest =>
      let index := indexOf usersNotInTeam0 user in
      let usersNotInTeam1 :=
        if negb (index =? -1)%Z then splice_one usersNotInTeam0 index
        else usersNotInTeam0 in
      addValue imp h p (UserProfileValue user) ;;
      removeInvitedUsers_loop rest usersNotInTeam1
  end.

Definition removeInvitedUsers (profiles : list ref) : M unit :=
  s <- this_state ;;
  usersNotInTeam0 <- removeInvitedUsers_loop profiles (usersNotInTeam s) ;;
  setState (fun s => set_guestsNotInTeam [] (set_usersNotInTeam usersNotInTeam0 s)).

(** The [for] loop of [removeUsersFromValuesNotInTeam]. *)
Fixpoint removeUsersFromValuesNotInTeam_loop (profiles : list ref)
    (usersNotInTeam0 : list ref) : list ref :=
  match profiles with
  | [] => usersNotInTeam0
  | user :: rest =>
      let index := indexOf usersNotInTeam0 user in
      let usersNotInTeam1 :=
        if negb (index =? -1)%Z then splice_one usersNotInTeam0 index
        else usersNotInTeam0 in
      removeUsersFromValuesNotInTeam_loop rest usersNotInTeam1
  end.

Definition removeUsersFromValuesNotInTeam (profiles : list ref) : M unit :=
  s <- this_state ;;
  let usersNotInTeam0 :=
    removeUsersFromValuesNotInTeam_loop profiles (usersNotInTeam s) in
  setState (fun s => set_guestsNotInTeam [] (set_usersNotInTeam usersNotInTeam0 s)).

(** lodash [isEqual] on two arrays of options: a deep comparison of the
    objects, whatever their references. *)
Definition isEqual (a b : list OptionValue) : bool :=
  bool_decide (option_object h <$> a = option_object h <$> b).

(** The [userIds] collected by the loop of [componentDidUpdate]. *)
Definition didUpdate_userIds (vs : list OptionValue) : list string :=
  foldl (fun userIds newValue =>
           match newValue with
           | UserProfileValue r => userIds ++ [UserProfile.id (user_at h r)]
           | GroupValue g =>
               match Group.member_ids (group_at h g) with
               | Some member_ids => userIds ++ member_ids
               | None => userIds
               end
           end) [] vs.

(** [componentDidUpdate] has no [await]: it returns the call it makes
    and the state once its [setState] is applied. *)
Definition componentDidUpdate (s : State) : list Fetch * State :=
  let values0 := getOptions imp h p s in
  let userIds := didUpdate_userIds values0 in
  if negb (isEqual values0 (optionValues s)) then
    ((if (0 <? length userIds)%nat
      then [getTeamMembersByIds (Channel.team_id (channel p)) userIds]
      else []),
     set_optionValues values0 s)
  else ([], s).

(** Everything that can happen to the mounted component: the callbacks
    of [Callback], the two banner callbacks and a React update. *)
Inductive Interaction :=
| callback (c : Callback)
| on_users_invited (profiles : list ref)
| on_invite_failed (profiles : list ref)
| on_did_update.

Definition interact (i : Interaction) (w : World) : World :=
  match i with
  | callback c => run imp h p c w
  | on_users_invited profiles => event (removeInvitedUsers profiles) w
  | on_invite_failed profiles => event (removeUsersFromValuesNotInTeam profiles) w
  | on_did_update => ((componentDidUpdate w.1).2, w.2)
  end.

Inductive reachable_by_interaction : World -> Prop :=
| reachable_mounted : reachable_by_interaction (initial_state, initial_env)
| reachable_interact i w :
    reachable_by_interaction w -> reachable_by_interaction (interact i w).

(** A burst of inputs: each [search] is followed by the given number of
    milliseconds. *)
Definition burst (inputs : list (string * nat)) (w : World) : World :=
  foldl (fun w input => advance p input.2 (event (search imp input.1) w)) w inputs.
End Banner.

(** The array with the first occurrence of [x] removed. *)
Fixpoint remove_first (x : ref) (l : list ref) : list ref :=
  match l with
  | [] => []
  | y :: l' => if decide (y = x) then l' else y :: remove_first x l'
  end.

(** What a call of [props.actions] or [props.onAddCallback] may be, given
    the props: a commit goes to the channel of the modal with at least one
    id and only when the host did not ask to skip it; the host's callback
    is used only when it asked to. *)
Definition call_allowed (p : Props) (c : Call) : Prop :=
  match c with
  | addUsersToChannel channelId userIds =>
      channelId = Channel.id (channel p) /\ userIds <> []
      /\ skipCommit p && onAddCallback p = false
  | onAddCallback_call userProfiles =>
      userProfiles <> [] /\ skipCommit p && onAddCallback p = true
  | _ => True
  end.

(** The label [render] shows above the list: none unless
    [this.state.inviteError] is a non-empty string. *)
Definition render_inviteError (s : State) : option string :=
  match inviteError s with
  | Some m => if decide (m = "") then None else Some m
  | None => None
  end.

(** ** The popover heading (profile_popover_full_name.tsx) *)

(** What [ProfilePopoverFullName] renders: the [div] with its test id,
    the [span] with its title and text, and the shared-user icon. *)
Record FullNameHeading := {
  data_testid : string;
  span_title : string;
  span_text : string;
  sharedIcon : bool;
}.

Definition ProfilePopoverFullName (fullname username : string)
    (remoteId : option string) : option FullNameHeading :=
  if decide (fullname = "") then None
  else Some {| data_testid := "popover-fullname-" ++ username;
               span_title := fullname;
               span_text := fullname;
               sharedIcon := match remoteId with
                             | Some i => if decide (i = "") then false else true
                             | None => false
                             end |}.

(** Helpers that order the options by the length of their name. *)
Definition length_imports : Imports := {|
  profileStartsWithTerm := fun u t => String.prefix t (UserProfile.username u);
  groupMatchesTerm := fun g t => String.prefix t (Group.name g);
  sortUsersAndGroups := fun a b =>
    (Z.of_nat (String.length (sample_name a))
     - Z.of_nat (String.length (sample_name b)))%Z;
  isGuest := fun r => String.eqb r "system_guest";
  SEARCH_TIMEOUT_MILLISECONDS := 100;
|}.

(** The host asks to skip the commit and gives a callback. *)
Definition props_skip_commit : Props := {|
  profilesNotInCurrentChannel := [0; 1];
  profilesInCurrentChannel := [];
  profilesNotInCurrentTeam := [];
  profilesFromRecentDMs := [];
  membersInTeam := Some {[ "u1" := TeamMembership.mk "t1" "u1" "team_user" 0 ]};
  channel := sample_channel;
  skipCommit := true;
  onAddCallback := true;
  excludeUsers := Some [];
  includeUsers := Some [];
  groups := [];
|}.

(** Users 0 and 4 wait in the banner; user 1 is selected. *)
Definition state_banner : State :=
  set_usersNotInTeam [0; 4] (set_values [1] initial_state).

(** The mounted component after user 1 was added and submitted. *)
Definition world_submitted : World :=
  interact sample_imports sample_heap plain_props (callback on_submit)
    (interact sample_imports sample_heap plain_props
       (callback (on_add (UserProfileValue 1))) (initial_state, initial_env)).

(** The mounted component after it was hidden. *)
Definition world_hidden : World :=
  interact sample_imports sample_heap plain_props (callback on_hide)
    (initial_state, initial_env).

(** Thirteen users with distinct ids: object 0 is "aa", objects 1 to 12
    are "u01" to "u12". *)
Definition dm_heap : Heap := {|
  user_at := fun r =>
    match r with
    | 0 => sample_user "aa" 0 "system_user"
    | 1 => sample_user "u01" 0 "system_user"
    | 2 => sample_user "u02" 0 "system_user"
    | 3 => sample_user "u03" 0 "system_user"
    | 4 => sample_user "u04" 0 "system_user"
    | 5 => sample_user "u05" 0 "system_user"
    | 6 => sample_user "u06" 0 "system_user"
    | 7 => sample_user "u07" 0 "system_user"
    | 8 => sample_user "u08" 0 "system_user"
    | 9 => sample_user "u09" 0 "system_user"
    | 10 => sample_user "u10" 0 "system_user"
    | 11 => sample_user "u11" 0 "system_user"
    | _ => sample_user "u12" 0 "system_user"
    end;
  group_at := fun _ => Group.mk "g1" "devs" "Developers" None 0;
|}.

(** Twelve recent DMs, all of them also among the profiles not in the
    channel, next to user 0 who is no recent DM. *)
Definition props_twelve_dms : Props :=
  sample_props [0; 1; 2; 3; 4; 5; 6; 7; 8; 9; 10; 11; 12] []
    [1; 2; 3; 4; 5; 6; 7; 8; 9; 10; 11; 12] (Some []) (Some []) [].

(** ** The [Set] model *)

Section SetFacts.
Context {A : Type} `{EqDecision A}.
Implicit Types (s l : list A) (x : A).

Lemma Set_add_elem s x y : y ∈ Set_add s x <-> y ∈ s \/ y = x.
Proof.
  unfold Set_add. case_decide as Hx.
  - split; [by left | intros [?| ->]; done].
  - rewrite elem_of_app, list_elem_of_singleton. tauto.
Qed.

Lemma Set_add_NoDup s x : NoDup s -> NoDup (Set_add s x).
Proof.
  intros Hs. unfold Set_add. case_decide as Hx; [done|].
  apply NoDup_app. split_and!; [done | | apply NoDup_singleton].
  intros y Hy ->%list_elem_of_singleton. done.
Qed.

Lemma Set_add_length s x : length (Set_add s x) <= S (length s).
Proof.
  unfold Set_add. case_decide; [lia|].
  rewrite length_app. simpl. lia.
Qed.

(** Adding the members of [l] one by one keeps what the set had, in
    place, and appends new members only. *)
Lemma foldl_Set_add_split s l :
  exists rest, foldl Set_add s l = s ++ rest
               /\ forall y, y ∈ rest -> y ∈ l /\ y ∉ s.
Proof.
  revert s. induction l as [|x l IH]; intros s; simpl.
  - exists []. rewrite app_nil_r. split; [done|]. by intros y ?%elem_of_nil.
  - destruct (IH (Set_add s x)) as (rest & Heq & Hrest).
    unfold Set_add in *. case_decide as Hx.
    + exists rest. split; [done|]. intros y Hy.
      destruct (Hrest y Hy). split; [by right | done].
    + exists (x :: rest). split.
      * rewrite Heq, <- app_assoc. done.
      * intros y [->|Hy]%elem_of_cons; [split; [by left | done]|].
        destruct (Hrest y Hy) as [? Hn]. split; [by right|].
        intros ?. apply Hn, elem_of_app. by left.
Qed.

Lemma foldl_Set_add_NoDup s l : NoDup s -> NoDup (foldl Set_add s l).
Proof.
  revert s. induction l as [|x l IH]; intros s Hs; simpl; [done|].
  by apply IH, Set_add_NoDup.
Qed.

Lemma foldl_Set_add_elem s l y : y ∈ foldl Set_add s l <-> y ∈ s \/ y ∈ l.
Proof.
  revert s. induction l as [|x l IH]; intros s; simpl.
  - split; [by left | intros [?|?%elem_of_nil]; done].
  - rewrite IH, Set_add_elem, elem_of_cons. tauto.
Qed.

Lemma foldl_Set_add_length s l :
  length (foldl Set_add s l) <= length s + length l.
Proof.
  revert s. induction l as [|x l IH]; intros s; simpl; [lia|].
  specialize (IH (Set_add s x)). pose proof (Set_add_length s x). lia.
Qed.

Lemma new_Set_NoDup l : NoDup (new_Set l).
Proof. apply foldl_Set_add_NoDup, NoDup_nil_2. Qed.

Lemma new_Set_elem l y : y ∈ new_Set l <-> y ∈ l.
Proof.
  unfold new_Set. rewrite foldl_Set_add_elem.
  split; [intros [?%elem_of_nil|?]; done | by right].
Qed.

Lemma new_Set_length l : length (new_Set l) <= length l.
Proof. apply (foldl_Set_add_length [] l). Qed.

Lemma new_Set_app l k :
  exists rest, new_Set (l ++ k) = new_Set l ++ rest
               /\ forall y, y ∈ rest -> y ∈ k /\ y ∉ l.
Proof.
  unfold new_Set. rewrite foldl_app.
  destruct (foldl_Set_add_split (foldl Set_add [] l) k) as (rest & Heq & Hrest).
  exists rest. split; [done|]. intros y Hy.
  destruct (Hrest y Hy) as [? Hn]. split; [done|].
  intros ?. by apply Hn, new_Set_elem.
Qed.

Lemma Set_has_false s x : Set_has s x = false <-> x ∉ s.
Proof. unfold Set_has. by rewrite bool_decide_eq_false. Qed.

Lemma indexOf_from_absent i l x : (0 <= i)%Z ->
  indexOf_from i l x = (-1)%Z <-> x ∉ l.
Proof.
  revert i. induction l as [|y l IH]; intros i Hi; simpl.
  - split; [intros _; apply not_elem_of_nil | done].
  - case_decide as Hy.
    + subst y. split; [lia | intros []; by left].
    + rewrite IH by lia. rewrite not_elem_of_cons.
      split; [intros ?; split; [congruence | done] | intros [_ ?]; done].
Qed.

Lemma indexOf_absent l x : (indexOf l x =? -1)%Z = true <-> x ∉ l.
Proof.
  rewrite Z.eqb_eq. apply indexOf_from_absent. lia.
Qed.

Lemma sort_insert_Permutation cmp x l : sort_insert cmp x l ≡ₚ x :: l.
Proof.
  induction l as [|y l IH]; simpl; [done|].
  destruct (cmp x y <=? 0)%Z; [done|].
  rewrite IH. apply Permutation_swap.
Qed.

Lemma Array_sort_Permutation cmp l : Array_sort cmp l ≡ₚ l.
Proof.
  unfold Array_sort. induction l as [|x l IH]; simpl; [done|].
  by rewrite sort_insert_Permutation, IH.
Qed.
End SetFacts.

(** ** The aggregation [getOptions] *)

Section AggregationFacts.
Variable imp : Imports.
Variable h : Heap.
Implicit Types (p : Props) (s : State) (r : ref) (v : OptionValue).

Lemma elem_of_take_elem {A} (l : list A) n x : x ∈ take n l -> x ∈ l.
Proof.
  rewrite elem_of_take. intros (i & Hi & _).
  apply list_elem_of_lookup. by exists i.
Qed.

Lemma UserProfileValue_elem r (l : list ref) :
  UserProfileValue r ∈ UserProfileValue <$> l <-> r ∈ l.
Proof.
  rewrite list_elem_of_fmap. split.
  - intros (r' & [= ->] & ?). done.
  - intros ?. by exists r.
Qed.

Lemma filterOutDeleted_elem r us ex :
  r ∈ filterOutDeletedAndExcludedAndNotInTeamUsers h us ex <->
  (UserProfile.delete_at (user_at h r) = 0%Z
   /\ UserProfile.id (user_at h r) ∉ ex) /\ r ∈ us.
Proof.
  unfold filterOutDeletedAndExcludedAndNotInTeamUsers.
  rewrite list_elem_of_filter, Set_has_false. done.
Qed.

Lemma filterProfiles_elem r us t :
  r ∈ filterProfilesStartingWithTerm imp h us t -> r ∈ us.
Proof.
  unfold filterProfilesStartingWithTerm. rewrite list_elem_of_filter. tauto.
Qed.

Lemma filterGroups_elem r gs t :
  r ∈ filterGroupsMatchingTerm imp h gs t -> r ∈ gs.
Proof.
  unfold filterGroupsMatchingTerm. rewrite list_elem_of_filter. tauto.
Qed.

(** A user of [users] passed the filter of the primary pool or is an
    [includeUsers] override. *)
Lemma getOptions_users_elem p s r :
  UserProfileValue r ∈ getOptions_users imp h p s ->
  r ∈ filterOutDeletedAndExcludedAndNotInTeamUsers h
        (filterProfilesStartingWithTerm imp h
           (profilesNotInCurrentChannel p ++ profilesInCurrentChannel p) (term s))
        (excludedAndNotInTeamUserIds h p)
  \/ r ∈ include_overrides p.
Proof.
  unfold getOptions_users, include_overrides.
  destruct (includeUsers p) as [inc|].
  - rewrite elem_of_app, !UserProfileValue_elem. tauto.
  - rewrite UserProfileValue_elem. tauto.
Qed.

Lemma getOptions_users_no_group p s g :
  GroupValue g ∉ getOptions_users imp h p s.
Proof.
  unfold getOptions_users.
  destruct (includeUsers p) as [inc|]; rewrite ?elem_of_app, !list_elem_of_fmap.
  - intros [(r & [=] & _)|(r & [=] & _)].
  - intros (r & [=] & _).
Qed.

Lemma getOptions_dmUsers_elem p s v :
  v ∈ getOptions_dmUsers imp h p s ->
  exists r, v = UserProfileValue r
    /\ r ∈ filterOutDeletedAndExcludedAndNotInTeamUsers h
             (filterProfilesStartingWithTerm imp h (profilesFromRecentDMs p) (term s))
             (excludedAndNotInTeamUserIds h p).
Proof.
  unfold getOptions_dmUsers. rewrite list_elem_of_fmap.
  intros (r & -> & Hr%elem_of_take_elem). by exists r.
Qed.

Lemma getOptions_dmUsers_length p s :
  length (getOptions_dmUsers imp h p s) <= USERS_FROM_DMS.
Proof.
  unfold getOptions_dmUsers. rewrite length_fmap, length_take. lia.
Qed.

Lemma getOptions_groupsAndUsers_elem p s v :
  v ∈ getOptions_groupsAndUsers imp h p s <->
  v ∈ (GroupValue <$> filterGroupsMatchingTerm imp h (groups p) (term s))
  \/ v ∈ getOptions_users imp h p s.
Proof.
  unfold getOptions_groupsAndUsers.
  rewrite Array_sort_Permutation, elem_of_app. done.
Qed.

Lemma getOptions_elem p s v :
  v ∈ getOptions imp h p s ->
  v ∈ getOptions_dmUsers imp h p s \/ v ∈ getOptions_groupsAndUsers imp h p s.
Proof.
  unfold getOptions, Array_from. rewrite new_Set_elem.
  intros Hv%elem_of_take_elem. by apply elem_of_app.
Qed.

(** Where a user of the result comes from: it passed
    [filterOutDeletedAndExcludedAndNotInTeamUsers], or [includeUsers]
    supplied it. *)
Lemma getOptions_user_origin p s r :
  UserProfileValue r ∈ getOptions imp h p s ->
  (UserProfile.delete_at (user_at h r) = 0%Z
   /\ UserProfile.id (user_at h r) ∉ excludedAndNotInTeamUserIds h p)
  \/ r ∈ include_overrides p.
Proof.
  intros [Hdm|Hgu]%getOptions_elem.
  - apply getOptions_dmUsers_elem in Hdm as (r' & [= <-] & Hr).
    apply filterOutDeleted_elem in Hr. tauto.
  - apply getOptions_groupsAndUsers_elem in Hgu as [Hg|Hu].
    + apply list_elem_of_fmap in Hg as (g & [=] & _).
    + apply getOptions_users_elem in Hu as [Hr|?]; [|by right].
      apply filterOutDeleted_elem in Hr. tauto.
Qed.


(** Every option of the result is one of the objects of the pools. *)
Lemma getOptions_input p s v :
  v ∈ getOptions imp h p s -> v ∈ input_options p.
Proof.
  unfold input_options. rewrite elem_of_app.
  intros [Hdm|Hgu]%getOptions_elem.
  - apply getOptions_dmUsers_elem in Hdm as (r & -> & Hr).
    apply filterOutDeleted_elem in Hr as [_ Hr%filterProfiles_elem].
    left. apply UserProfileValue_elem. rewrite !elem_of_app. tauto.
  - apply getOptions_groupsAndUsers_elem in Hgu as [Hg|Hu].
    + right. apply list_elem_of_fmap in Hg as (g & -> & Hg%filterGroups_elem).
      by apply list_elem_of_fmap_2.
    + left. destruct v as [r|g]; [|by apply getOptions_users_no_group in Hu].
      apply UserProfileValue_elem. rewrite !elem_of_app.
      apply getOptions_users_elem in Hu as [Hr|?]; [|tauto].
      apply filterOutDeleted_elem in Hr as [_ Hr%filterProfiles_elem].
      rewrite elem_of_app in Hr. tauto.
Qed.

(** The result is the deduplicated recent-DM users followed by options
    that are not among them. *)
Lemma getOptions_split p s :
  exists others,
    getOptions imp h p s = new_Set (getOptions_dmUsers imp h p s) ++ others
    /\ forall v, v ∈ others ->
         v ∈ getOptions_groupsAndUsers imp h p s
         /\ v ∉ getOptions_dmUsers imp h p s.
Proof.
  unfold getOptions, Array_from.
  pose proof (getOptions_dmUsers_length p s) as Hlen.
  rewrite take_app, (take_ge (getOptions_dmUsers imp h p s))
    by (unfold MAX_USERS, USERS_FROM_DMS in *; lia).
  destruct (new_Set_app (getOptions_dmUsers imp h p s)
              (take (MAX_USERS - length (getOptions_dmUsers imp h p s))
                 (getOptions_groupsAndUsers imp h p s)))
    as (others & Heq & Hothers).
  exists others. split; [done|]. intros v Hv.
  destruct (Hothers v Hv) as [Hin%elem_of_take_elem Hnot]. done.
Qed.


(** C2 (as amended).  [getOptions] returns no object twice: the [Set]
    deduplicates by reference.  When no two distinct objects of the pools
    share an id, no two entries of the result have the same id. *)
Theorem getOptions_no_duplicates p s :
  NoDup (getOptions imp h p s)
  /\ (one_object_per_id h p -> NoDup (option_id h <$> getOptions imp h p s)).
Proof.
  assert (NoDup (getOptions imp h p s)) as Hnd by apply new_Set_NoDup.
  split; [done|]. intros Hinj.
  apply NoDup_fmap_2_strong; [|done].
  intros a b Ha Hb Hid.
  apply Hinj; [by eapply getOptions_input | by eapply getOptions_input | done].
Qed.

(** C3 (as amended).  Every user returned by [getOptions] has
    [delete_at = 0] unless [includeUsers] supplied it: a deactivated
    user of the primary pool or of the recent DMs never appears. *)
Theorem getOptions_deleted_users_absent p s r :
  UserProfileValue r ∈ getOptions imp h p s ->
  UserProfile.delete_at (user_at h r) = 0%Z \/ r ∈ include_overrides p.
Proof.
  intros Hr. destruct (getOptions_user_origin p s r Hr) as [[? _]|?]; tauto.
Qed.

(** C4 (as amended).  The options [getOptions] takes from the recent-DM
    pool are the first 10 users of [profilesFromRecentDMs] that pass the
    filters (active, not in the set built for exclusion, matching the
    term).  Deduplicated, they open the result: they number at most 10,
    none of them is cut, and each precedes every option that is not one
    of them.  When at most 10 recent-DM users pass the filters, they are
    exactly this block. *)
Theorem getOptions_recent_dms_first p s :
  let passing :=
    filterOutDeletedAndExcludedAndNotInTeamUsers h
      (filterProfilesStartingWithTerm imp h (profilesFromRecentDMs p) (term s))
      (excludedAndNotInTeamUserIds h p) in
  let fromDMs := new_Set (UserProfileValue <$> take 10 passing) in
  exists others,
    getOptions imp h p s = fromDMs ++ others
    /\ length fromDMs <= 10
    /\ (forall r, r ∈ take 10 passing -> UserProfileValue r ∈ fromDMs)
    /\ (forall v, v ∈ fromDMs ->
          exists r, v = UserProfileValue r /\ r ∈ take 10 passing
                    /\ r ∈ profilesFromRecentDMs p)
    /\ (forall v, v ∈ others ->
          (v ∉ fromDMs) /\ v ∈ getOptions_groupsAndUsers imp h p s)
    /\ (forall i j a b,
          getOptions imp h p s !! i = Some a ->
          getOptions imp h p s !! j = Some b ->
          a ∈ fromDMs -> b ∉ fromDMs -> i < j)
    /\ (length passing <= 10 ->
        forall r, r ∈ passing <-> UserProfileValue r ∈ fromDMs).
Proof.
  intros passing fromDMs.
  assert (fromDMs = new_Set (getOptions_dmUsers imp h p s)) as HfromDMs
    by reflexivity.
  assert (forall r, UserProfileValue r ∈ fromDMs <-> r ∈ take 10 passing) as Hblock.
  { intros r. subst fromDMs. by rewrite new_Set_elem, UserProfileValue_elem. }
  destruct (getOptions_split p s) as (others & Heq & Hothers).
  rewrite <- HfromDMs in Heq.
  assert (forall v, v ∈ others -> v ∉ fromDMs) as Hfresh.
  { intros v Hv. rewrite HfromDMs, new_Set_elem. by destruct (Hothers v Hv). }
  exists others. split_and!.
  - done.
  - rewrite HfromDMs.
    pose proof (new_Set_length (getOptions_dmUsers imp h p s)).
    pose proof (getOptions_dmUsers_length p s).
    unfold USERS_FROM_DMS in *. lia.
  - intros r Hr. by apply Hblock.
  - intros v Hv. subst fromDMs.
    apply new_Set_elem, list_elem_of_fmap in Hv as (r & -> & Hr).
    exists r. split_and!; [done | done |].
    apply elem_of_take_elem, filterOutDeleted_elem in Hr as [_ Hr].
    by apply filterProfiles_elem in Hr.
  - intros v Hv. split; [by apply Hfresh | by destruct (Hothers v Hv)].
  - intros i j a b Hi Hj Ha Hb. rewrite Heq in Hi, Hj.
    destruct (decide (i < length fromDMs)) as [Hlt|Hge].
    + destruct (decide (j < length fromDMs)) as [Hjlt|Hjge]; [|lia].
      rewrite lookup_app_l in Hj by done.
      destruct Hb. apply list_elem_of_lookup. by exists j.
    + rewrite lookup_app_r in Hi by lia.
      assert (a ∈ others) as Ha' by (apply list_elem_of_lookup; eauto).
      by destruct (Hfresh a Ha').
  - intros Hlen r. rewrite Hblock, take_ge by done. done.
Qed.

(** C5.  [getOptions] never returns more than 25 options. *)
Theorem getOptions_length p s :
  length (getOptions imp h p s) <= 25.
Proof.
  unfold getOptions, Array_from.
  etrans; [apply new_Set_length|].
  rewrite length_take. unfold MAX_USERS. lia.
Qed.
End AggregationFacts.

(** ** The selection handlers *)

Section HandlerFacts.
Variable imp : Imports.
Variable h : Heap.
Variable p : Props.
Implicit Types (w : World) (r : ref).

Lemma indexOf_eqb (l : list ref) r :
  (indexOf l r =? -1)%Z = bool_decide (r ∉ l).
Proof.
  destruct (decide (r ∉ l)) as [Hn|Hin].
  - rewrite bool_decide_eq_true_2 by done. by apply indexOf_absent.
  - rewrite bool_decide_eq_false_2 by done.
    apply not_true_is_false. by rewrite indexOf_absent.
Qed.

(** What one [addValue] callback does to the state of a user option. *)
Lemma addValue_user w r :
  event (addValue imp h p (UserProfileValue r)) w =
  (if not_in_team h p r then
     if isGuest imp (UserProfile.roles (user_at h r)) then
       if decide (r ∈ guestsNotInTeam w.1) then w.1
       else set_guestsNotInTeam (guestsNotInTeam w.1 ++ [r]) w.1
     else
       if decide (r ∈ usersNotInTeam w.1) then w.1
       else set_usersNotInTeam (usersNotInTeam w.1 ++ [r]) w.1
   else
     if decide (r ∈ values w.1) then w.1
     else set_values (values w.1 ++ [r]) w.1,
   w.2).
Proof.
  destruct w as [s e]. unfold event, addValue, bind, this_state. simpl.
  rewrite !indexOf_eqb.
  destruct (not_in_team h p r);
    [destruct (isGuest imp (UserProfile.roles (user_at h r)))|];
    case_decide; (rewrite bool_decide_eq_false_2 by tauto)
                 || (rewrite bool_decide_eq_true_2 by tauto); reflexivity.
Qed.

(** Once added, adding the same object again changes nothing. *)
Lemma addValue_user_twice w r :
  event (addValue imp h p (UserProfileValue r))
    (event (addValue imp h p (UserProfileValue r)) w)
  = event (addValue imp h p (UserProfileValue r)) w.
Proof.
  rewrite (addValue_user (event _ w)), !addValue_user.
  destruct w as [s e]. simpl.
  destruct (not_in_team h p r);
    [destruct (isGuest imp (UserProfile.roles (user_at h r)))|].
  - destruct (decide (r ∈ guestsNotInTeam s)) as [Hin|Hin]; simpl.
    + by rewrite decide_True.
    + by rewrite decide_True by (apply elem_of_app; right; by left).
  - destruct (decide (r ∈ usersNotInTeam s)) as [Hin|Hin]; simpl.
    + by rewrite decide_True.
    + by rewrite decide_True by (apply elem_of_app; right; by left).
  - destruct (decide (r ∈ values s)) as [Hin|Hin]; simpl.
    + by rewrite decide_True.
    + by rewrite decide_True by (apply elem_of_app; right; by left).
Qed.

Lemma occurrences_app r (l k : list ref) :
  occurrences r (l ++ k) = occurrences r l + occurrences r k.
Proof. unfold occurrences. by rewrite filter_app, length_app. Qed.

Lemma occurrences_absent r (l : list ref) : r ∉ l -> occurrences r l = 0.
Proof.
  unfold occurrences. intros Hr.
  induction l as [|x l IH]; [done|].
  apply not_elem_of_cons in Hr as [Hne Hr].
  rewrite filter_cons_False by congruence. by apply IH.
Qed.

Lemma occurrences_present r (l : list ref) : r ∈ l -> 1 <= occurrences r l.
Proof.
  unfold occurrences. intros Hr.
  induction Hr as [x l|x y l Hr IH].
  - rewrite filter_cons_True by done. simpl. lia.
  - destruct (decide (y = x)) as [->|Hne].
    + rewrite filter_cons_True by done. simpl. lia.
    + rewrite filter_cons_False by done. apply IH.
Qed.

Lemma occurrences_positive r (l : list ref) : r ∈ l -> Nat.max 1 (occurrences r l) = occurrences r l.
Proof. intros Hr. pose proof (occurrences_present r l Hr). lia. Qed.

(** C7 (as amended).  For a team member, calling [addValue] with the same
    object in two callbacks, the second one run on the state the first
    one committed: from every state the second call changes nothing and
    the object is selected afterwards, as often as before or once if it
    was not; so from a state in which the object is selected at most
    once, it is selected exactly once. *)
Theorem addValue_member_twice_once w r :
  not_in_team h p r = false ->
  let w1 := event (addValue imp h p (UserProfileValue r)) w in
  let w2 := event (addValue imp h p (UserProfileValue r)) w1 in
  w2 = w1
  /\ r ∈ values w2.1
  /\ occurrences r (values w2.1) = Nat.max 1 (occurrences r (values w.1))
  /\ (occurrences r (values w.1) <= 1 -> occurrences r (values w2.1) = 1).
Proof.
  intros Hmem w1 w2. subst w1 w2.
  rewrite addValue_user_twice.
  assert (r ∈ values (event (addValue imp h p (UserProfileValue r)) w).1
          /\ occurrences r (values (event (addValue imp h p (UserProfileValue r)) w).1)
             = Nat.max 1 (occurrences r (values w.1))) as [Hin Hocc].
  { rewrite addValue_user, Hmem. simpl. case_decide as Hin.
    - split; [done|]. by rewrite occurrences_positive.
    - simpl. split; [apply elem_of_app; right; by left|].
      rewrite occurrences_app, (occurrences_absent r _ Hin).
      unfold occurrences. rewrite filter_cons_True by done. done. }
  split_and!; [done | done | done |].
  intros Hle. rewrite Hocc. pose proof (Nat.le_0_l (occurrences r (values w.1))). lia.
Qed.

(** C8.  For a user who is not a team member, [addValue] puts a guest in
    [guestsNotInTeam] (unless already there) and any other user in
    [usersNotInTeam] (unless already there); the selected values and the
    other bucket are left as they were. *)
Theorem addValue_not_in_team w r :
  not_in_team h p r = true ->
  let w' := event (addValue imp h p (UserProfileValue r)) w in
  values w'.1 = values w.1
  /\ (isGuest imp (UserProfile.roles (user_at h r)) = true ->
        r ∈ guestsNotInTeam w'.1
        /\ guestsNotInTeam w'.1 =
             (if decide (r ∈ guestsNotInTeam w.1) then guestsNotInTeam w.1
              else guestsNotInTeam w.1 ++ [r])
        /\ usersNotInTeam w'.1 = usersNotInTeam w.1)
  /\ (isGuest imp (UserProfile.roles (user_at h r)) = false ->
        r ∈ usersNotInTeam w'.1
        /\ usersNotInTeam w'.1 =
             (if decide (r ∈ usersNotInTeam w.1) then usersNotInTeam w.1
              else usersNotInTeam w.1 ++ [r])
        /\ guestsNotInTeam w'.1 = guestsNotInTeam w.1).
Proof.
  intros Hnot w'. subst w'. rewrite addValue_user, Hnot. simpl.
  destruct (isGuest imp (UserProfile.roles (user_at h r))).
  - split_and!; [by case_decide | | done].
    intros _. case_decide as Hin; simpl; [done|].
    split_and!; [apply elem_of_app; right; by left | done | done].
  - split_and!; [by case_decide | done |].
    intros _. case_decide as Hin; simpl; [done|].
    split_and!; [apply elem_of_app; right; by left | done | done].
Qed.

(** C10.  [addValue] on a group is a no-op: the callback queues no
    update and touches nothing, so the state and the environment are
    exactly what they were. *)
Theorem addValue_group_noop w g :
  addValue imp h p (GroupValue g) w.1 w.2 = (tt, [], w.2)
  /\ event (addValue imp h p (GroupValue g)) w = w.
Proof. destruct w as [s e]. split; reflexivity. Qed.

(** [handleSubmit] with a selection, when it commits: [saving] is set
    and [addUsersToChannel] is called with the ids of the selection. *)
Lemma handleSubmit_commit w :
  values w.1 <> [] ->
  skipCommit p && onAddCallback p = false ->
  event (handleSubmit h p) w =
  (set_saving true w.1,
   {| searchTimeoutId := searchTimeoutId w.2; timers := timers w.2;
      next_timer_id := next_timer_id w.2; now := now w.2;
      calls := calls w.2 ++
        [addUsersToChannel (Channel.id (channel p))
           ((fun v => UserProfile.id (user_at h v)) <$> values w.1)] |}).
Proof.
  destruct w as [s e]. simpl. intros Hne Hskip.
  unfold event, handleSubmit, bind, this_state. simpl.
  rewrite length_fmap. destruct (values s) as [|v vs] eqn:Hv; [done|].
  simpl. rewrite Hskip. reflexivity.
Qed.

Lemma addUsersToChannel_then_error w result e :
  error result = Some e ->
  event (addUsersToChannel_then p result) w =
  (set_inviteError (Some (message e)) (set_saving false w.1), w.2).
Proof.
  destruct w as [s env]. intros Herr.
  unfold event, addUsersToChannel_then. rewrite Herr. reflexivity.
Qed.

(** C6.  [handleSubmit] runs with a non-empty selection and
    [skipCommit] false, and [addUsersToChannel] resolves with
    [{error: {message: m}}]: afterwards [saving] is false, [inviteError]
    is [m], the selected values are what they were and [show] is what it
    was, so an open modal stays open. *)
Theorem handleSubmit_commit_error w result m :
  values w.1 <> [] ->
  skipCommit p = false ->
  error result = Some {| message := m |} ->
  let w1 := event (handleSubmit h p) w in
  let w2 := event (addUsersToChannel_then p result) w1 in
  calls w1.2 = calls w.2 ++
    [addUsersToChannel (Channel.id (channel p))
       ((fun v => UserProfile.id (user_at h v)) <$> values w.1)]
  /\ saving w2.1 = false
  /\ inviteError w2.1 = Some m
  /\ values w2.1 = values w.1
  /\ show w2.1 = show w.1
  /\ (show w.1 = true -> show w2.1 = true).
Proof.
  intros Hne Hskip Herr w1 w2. subst w1 w2.
  rewrite (addUsersToChannel_then_error _ _ _ Herr).
  rewrite handleSubmit_commit by (by rewrite ?Hskip).
  simpl. split_and!; done.
Qed.
End HandlerFacts.

(** ** The debounced [search] *)

Section SearchFacts.
Variable imp : Imports.
Variable p : Props.
Implicit Types (w : World) (e : Env) (t : string) (tm : Timer).

Lemma filter_none {A} (P : A -> Prop) `{!forall x, Decision (P x)} (l : list A) :
  (forall x, x ∈ l -> ~ P x) -> filter P l = [].
Proof.
  induction l as [|x l IH]; intros Hl; [done|].
  rewrite filter_cons_False by (apply Hl; by left).
  apply IH. intros y Hy. apply Hl. by right.
Qed.

Lemma filter_all {A} (P : A -> Prop) `{!forall x, Decision (P x)} (l : list A) :
  (forall x, x ∈ l -> P x) -> filter P l = l.
Proof.
  induction l as [|x l IH]; intros Hl; [done|].
  rewrite filter_cons_True by (apply Hl; by left).
  f_equal. apply IH. intros y Hy. apply Hl. by right.
Qed.

Lemma search_event w t :
  event (search imp t) w =
  (set_term (trim t) w.1,
   {| searchTimeoutId := next_timer_id w.2;
      timers := filter (fun tm => timer_id tm <> searchTimeoutId w.2) (timers w.2)
                  ++ [{| timer_id := next_timer_id w.2;
                         timer_due := now w.2 + SEARCH_TIMEOUT_MILLISECONDS imp;
                         timer_term := trim t |}];
      next_timer_id := S (next_timer_id w.2);
      now := now w.2;
      calls := calls w.2 |}).
Proof. destruct w as [s e]. reflexivity. Qed.

Lemma search_timeout_event w t :
  event (search_timeout p t) w =
  (w.1,
   {| searchTimeoutId := searchTimeoutId w.2; timers := timers w.2;
      next_timer_id := next_timer_id w.2; now := now w.2;
      calls := calls w.2 ++ (if decide (t = "") then [] else search_dispatch p t) |}).
Proof.
  destruct w as [s e]. unfold search_timeout, event.
  destruct (decide (t = "")); simpl.
  - destruct e; simpl. by rewrite app_nil_r.
  - by rewrite <- app_assoc.
Qed.

(** [clearTimeout(this.searchTimeoutId)] leaves no timer when every
    pending timer is the tracked one. *)
Lemma clear_tracked e :
  timers_tracked e ->
  filter (fun tm => timer_id tm <> searchTimeoutId e) (timers e) = [].
Proof.
  intros Htr. apply filter_none. intros tm Hin Hne. by apply Hne, Htr.
Qed.

(** [search] and the passing of time keep the timers tracked. *)
Lemma search_tracked w t :
  timers_tracked w.2 -> timers_tracked (event (search imp t) w).2.
Proof.
  intros Htr. rewrite search_event. unfold timers_tracked. simpl.
  rewrite (clear_tracked _ Htr). simpl.
  by intros tm ->%list_elem_of_singleton.
Qed.

Lemma fire_due_calls_tracked (due : list Timer) w :
  timers_tracked w.2 ->
  timers_tracked
    (foldl (fun w tm => event (search_timeout p (timer_term tm)) w) w due).2.
Proof.
  revert w. induction due as [|tm due IH]; intros w Htr; simpl; [done|].
  apply IH. by rewrite search_timeout_event.
Qed.

Lemma tick_tracked w : timers_tracked w.2 -> timers_tracked (tick p w).2.
Proof.
  intros Htr. unfold tick, fire_due. apply fire_due_calls_tracked.
  unfold timers_tracked in *. simpl. intros tm [_ Hin]%list_elem_of_filter.
  by apply Htr.
Qed.

Lemma advance_tracked n w : timers_tracked w.2 -> timers_tracked (advance p n w).2.
Proof.
  revert w. induction n as [|n IH]; intros w Htr; simpl; [done|].
  by apply IH, tick_tracked.
Qed.

(** A millisecond in which no timer is due only moves the clock. *)
Lemma tick_idle w :
  (forall tm, tm ∈ timers w.2 -> S (now w.2) < timer_due tm) ->
  tick p w =
  (w.1, {| searchTimeoutId := searchTimeoutId w.2; timers := timers w.2;
           next_timer_id := next_timer_id w.2; now := S (now w.2);
           calls := calls w.2 |}).
Proof.
  intros Hdue. unfold tick, fire_due. simpl.
  rewrite (filter_none (fun tm => timer_due tm <= S (now w.2)))
    by (intros tm Hin; specialize (Hdue tm Hin); simpl; lia).
  rewrite (filter_all (fun tm => ~ timer_due tm <= S (now w.2)))
    by (intros tm Hin; specialize (Hdue tm Hin); simpl; lia).
  reflexivity.
Qed.

Lemma advance_idle n w :
  (forall tm, tm ∈ timers w.2 -> now w.2 + n < timer_due tm) ->
  advance p n w =
  (w.1, {| searchTimeoutId := searchTimeoutId w.2; timers := timers w.2;
           next_timer_id := next_timer_id w.2; now := now w.2 + n;
           calls := calls w.2 |}).
Proof.
  revert w. induction n as [|n IH]; intros [s e] Hdue; simpl in *.
  - rewrite Nat.add_0_r. by destruct e.
  - rewrite tick_idle by (intros tm Hin; specialize (Hdue tm Hin); simpl; lia).
    rewrite IH by (intros tm Hin; specialize (Hdue tm Hin); simpl; lia).
    simpl. do 2 f_equal. lia.
Qed.

(** The millisecond in which the only pending timer falls due: its
    callback runs and no timer is left. *)
Lemma tick_fire w tm :
  timers w.2 = [tm] ->
  timer_due tm <= S (now w.2) ->
  tick p w =
  (w.1, {| searchTimeoutId := searchTimeoutId w.2; timers := [];
           next_timer_id := next_timer_id w.2; now := S (now w.2);
           calls := calls w.2 ++
             (if decide (timer_term tm = "") then []
              else search_dispatch p (timer_term tm)) |}).
Proof.
  intros Htm Hdue. unfold tick, fire_due. simpl. rewrite Htm.
  rewrite filter_cons_False by (simpl; lia).
  rewrite filter_cons_True by (simpl; lia).
  simpl. rewrite search_timeout_event. reflexivity.
Qed.

Lemma advance_add a b w : advance p (a + b) w = advance p b (advance p a w).
Proof. revert w. induction a as [|a IH]; intros w; simpl; [done|]. apply IH. Qed.

(** A timer set [delay] milliseconds ago fires once, [delay]
    milliseconds after it was set (a delay of 0 fires with the next
    millisecond), and never again. *)
Lemma advance_single_timer n w tm :
  timers w.2 = [tm] ->
  now w.2 < timer_due tm ->
  calls (advance p n w).2 =
  calls w.2 ++
    (if decide (timer_due tm <= now w.2 + n) then
       if decide (timer_term tm = "") then [] else search_dispatch p (timer_term tm)
     else []).
Proof.
  intros Htm Hlt. case_decide as Hn.
  - replace n with ((timer_due tm - now w.2 - 1) + (1 + (n - (timer_due tm - now w.2))))
      by lia.
    rewrite advance_add.
    rewrite (advance_idle (timer_due tm - now w.2 - 1) w)
      by (rewrite Htm; intros ? ->%list_elem_of_singleton; lia).
    rewrite (advance_add 1). simpl advance at 2.
    rewrite (tick_fire _ tm) by (simpl; first [exact Htm | lia]).
    rewrite advance_idle by (simpl; intros ? []%elem_of_nil).
    reflexivity.
  - rewrite advance_idle
      by (rewrite Htm; intros ? ->%list_elem_of_singleton; lia).
    simpl. by rewrite app_nil_r.
Qed.

(** Two searches less than the delay apart: the second replaces the
    timer of the first, and only its term is ever dispatched. *)
Lemma search_debounce w t1 t2 d n :
  timers_tracked w.2 ->
  d < SEARCH_TIMEOUT_MILLISECONDS imp ->
  let w2 := advance p d (event (search imp t1) w) in
  let w3 := event (search imp t2) w2 in
  calls w2.2 = calls w.2
  /\ timers w3.2 = [{| timer_id := S (next_timer_id w.2);
                       timer_due := now w.2 + d + SEARCH_TIMEOUT_MILLISECONDS imp;
                       timer_term := trim t2 |}]
  /\ term w3.1 = trim t2
  /\ calls (advance p n w3).2 =
     calls w.2 ++
       (if decide (SEARCH_TIMEOUT_MILLISECONDS imp <= n) then
          if decide (trim t2 = "") then [] else search_dispatch p (trim t2)
        else []).
Proof.
  intros Htr Hd w2 w3.
  assert (w2 = (set_term (trim t1) w.1,
                {| searchTimeoutId := next_timer_id w.2;
                   timers := [{| timer_id := next_timer_id w.2;
                                 timer_due := now w.2 + SEARCH_TIMEOUT_MILLISECONDS imp;
                                 timer_term := trim t1 |}];
                   next_timer_id := S (next_timer_id w.2);
                   now := now w.2 + d;
                   calls := calls w.2 |})) as Hw2.
  { subst w2. rewrite search_event, (clear_tracked _ Htr). simpl.
    rewrite advance_idle
      by (simpl; intros ? ->%list_elem_of_singleton; simpl; lia).
    reflexivity. }
  assert (timers w3.2 = [{| timer_id := S (next_timer_id w.2);
                            timer_due := now w.2 + d + SEARCH_TIMEOUT_MILLISECONDS imp;
                            timer_term := trim t2 |}]
          /\ calls w3.2 = calls w.2 /\ now w3.2 = now w.2 + d
          /\ term w3.1 = trim t2) as (Htm & Hcalls & Hnow & Hterm).
  { subst w3. rewrite search_event, Hw2. simpl.
    rewrite filter_cons_False by (simpl; tauto). done. }
  split_and!; [by rewrite Hw2 | done | done |].
  rewrite (advance_single_timer n w3 _ Htm) by (rewrite Hnow; simpl; lia).
  rewrite Hcalls, Hnow. simpl.
  destruct (decide (SEARCH_TIMEOUT_MILLISECONDS imp <= n));
    [rewrite decide_True by lia | rewrite decide_False by lia]; done.
Qed.

(** The callbacks other than [search] and the clock leave the timers and
    [searchTimeoutId] alone. *)
Lemma run_keeps_timers h c w :
  (forall t, c <> on_input t) -> c <> on_millisecond ->
  timers (run imp h p c w).2 = timers w.2
  /\ searchTimeoutId (run imp h p c w).2 = searchTimeoutId w.2.
Proof.
  intros Hin Hms. destruct w as [s e].
  destruct c as [[r|g]|vs| | |result|t| | |]; simpl;
    try done; try (by destruct (Hin t)).
  - unfold event, addValue, bind, this_state. simpl.
    repeat match goal with |- context [if ?b then _ else _] => destruct b end; done.
  - unfold event, handleSubmit, bind, this_state. simpl.
    repeat match goal with |- context [if ?b then _ else _] => destruct b end; done.
  - unfold event, addUsersToChannel_then, handleInviteError.
    destruct (error result); done.
Qed.

(** Every world the component can be in keeps its timers tracked. *)
Lemma reachable_tracked h w : reachable imp h p w -> timers_tracked w.2.
Proof.
  induction 1 as [|c w Hw IH].
  - intros tm Htm. by apply elem_of_nil in Htm.
  - destruct c as [v|vs| | |result|t| | |];
      try (by apply search_tracked); try (by apply tick_tracked).
    all: match goal with
         | |- timers_tracked (run _ _ _ ?c _).2 =>
             destruct (run_keeps_timers h c w) as [Ht Hid];
             [done | done | unfold timers_tracked; by rewrite Ht, Hid]
         end.
Qed.

(** C9.  [search("al")] and then, before the delay of the first call has
    elapsed, [search("ali")]: the timer of "al" is cancelled and the
    timer of "ali" is the only pending one; however long one waits,
    nothing is dispatched for "al", and once the delay has passed exactly
    one [searchProfiles] and one group search are dispatched, both with
    the term "ali". *)
Theorem search_al_then_ali_dispatches_once w d n :
  timers_tracked w.2 ->
  d < SEARCH_TIMEOUT_MILLISECONDS imp ->
  let w2 := advance p d (event (search imp "al") w) in
  let w3 := event (search imp "ali") w2 in
  calls w2.2 = calls w.2
  /\ (exists tm, timers w3.2 = [tm] /\ timer_term tm = "ali")
  /\ calls (advance p n w3).2 =
     calls w.2 ++
       (if decide (SEARCH_TIMEOUT_MILLISECONDS imp <= n)
        then search_dispatch p "ali" else []).
Proof.
  intros Htr Hd w2 w3.
  destruct (search_debounce w "al" "ali" d n Htr Hd) as (H2 & H3 & _ & H4).
  split_and!; [done | eexists; split; [exact H3 | reflexivity] | exact H4].
Qed.
End SearchFacts.


(** ** The claims on sample inputs *)

(** Decidable facts about the sample data are settled by evaluation. *)
Ltac by_evaluation := apply (bool_decide_unpack _); vm_compute; exact I.



(** The slip in the construction of the set, left out of C1 as amended:
    with a user outside the team, [new Set(...ids, excluded)] iterates the
    first id, so the set holds its characters and the user is returned. *)
Example excluded_set_of_spread_arguments :
  excludedAndNotInTeamUserIds sample_heap props_not_in_team = ["a"; "b"]
  /\ exclusion_ids sample_heap props_not_in_team = ["ab"]
  /\ getOptions sample_imports sample_heap props_not_in_team initial_state
     = [UserProfileValue 0; UserProfileValue 1].
Proof. split_and!; reflexivity. Qed.

(** C2, the claim as stated fails: two objects of the user "u1", one from
    the recent DMs and one from the profiles not in the channel, are both
    returned. *)
Lemma getOptions_returns_same_id_twice :
  getOptions sample_imports sample_heap props_two_copies initial_state
    = [UserProfileValue 2; UserProfileValue 1]
  /\ option_id sample_heap <$>
       getOptions sample_imports sample_heap props_two_copies initial_state
     = ["u1"; "u1"]
  /\ ~ NoDup (option_id sample_heap <$>
                getOptions sample_imports sample_heap props_two_copies initial_state).
Proof.
  split_and!; [reflexivity | reflexivity | by_evaluation].
Qed.

Lemma sample_pools_one_object_per_id : one_object_per_id sample_heap props_pools.
Proof.
  intros a b Ha Hb Hid.
  change (a ∈ [UserProfileValue 0; UserProfileValue 1; UserProfileValue 3;
               UserProfileValue 4]) in Ha.
  change (b ∈ [UserProfileValue 0; UserProfileValue 1; UserProfileValue 3;
               UserProfileValue 4]) in Hb.
  repeat match goal with
         | H : _ ∈ _ :: _ |- _ => apply elem_of_cons in H as [->|H]
         | H : _ ∈ [] |- _ => by apply elem_of_nil in H
         end; first [reflexivity | by vm_compute in Hid].
Defined.

Lemma getOptions_no_duplicates_witness :
  one_object_per_id sample_heap props_pools
  /\ NoDup (getOptions sample_imports sample_heap props_pools initial_state)
  /\ NoDup (option_id sample_heap <$>
              getOptions sample_imports sample_heap props_pools initial_state).
Proof.
  destruct (getOptions_no_duplicates sample_imports sample_heap props_pools initial_state)
    as [Hobj Hid].
  split_and!; [exact sample_pools_one_object_per_id | exact Hobj |].
  exact (Hid sample_pools_one_object_per_id).
Defined.

(** C3, the claim as stated fails: a deactivated user supplied by
    [includeUsers] is returned. *)
Lemma getOptions_returns_deleted_override :
  getOptions sample_imports sample_heap props_deleted_override initial_state
    = [UserProfileValue 3]
  /\ UserProfile.delete_at (user_at sample_heap 3) = 5%Z
  /\ ~ (forall r,
          UserProfileValue r
            ∈ getOptions sample_imports sample_heap props_deleted_override initial_state ->
          UserProfile.delete_at (user_at sample_heap r) = 0%Z).
Proof.
  split_and!; [reflexivity | reflexivity |].
  intros Hall.
  assert (UserProfile.delete_at (user_at sample_heap 3) = 0%Z) as H3
    by (apply Hall; by_evaluation).
  discriminate H3.
Qed.

Lemma getOptions_deleted_users_absent_witness :
  UserProfileValue 0 ∈ getOptions sample_imports sample_heap props_pools initial_state
  /\ (UserProfileValue 3 ∉ getOptions sample_imports sample_heap props_pools initial_state)
  /\ (UserProfile.delete_at (user_at sample_heap 0) = 0%Z
      \/ 0 ∈ include_overrides props_pools).
Proof.
  assert (UserProfileValue 0
            ∈ getOptions sample_imports sample_heap props_pools initial_state)
    as H0 by by_evaluation.
  split_and!; [exact H0 | by_evaluation |].
  exact (getOptions_deleted_users_absent sample_imports sample_heap
           props_pools initial_state 0 H0).
Defined.

(** C4, the claim as stated fails.  Twelve recent DMs are also among the
    profiles not in the channel: the first ten open the result, the other
    two come back through the sorted users, after user 0 who is no recent
    DM.  Twelve options of the result are of the recent-DM pool, and one
    that is not precedes two of them. *)
Lemma getOptions_returns_twelve_recent_dms :
  getOptions sample_imports dm_heap props_twelve_dms initial_state
    = UserProfileValue <$> [1; 2; 3; 4; 5; 6; 7; 8; 9; 10; 0; 11; 12]
  /\ length (filter (fun v => v ∈ UserProfileValue <$> profilesFromRecentDMs props_twelve_dms)
               (getOptions sample_imports dm_heap props_twelve_dms initial_state))
     = 12
  /\ (0 ∉ profilesFromRecentDMs props_twelve_dms)
  /\ 11 ∈ profilesFromRecentDMs props_twelve_dms
  /\ getOptions sample_imports dm_heap props_twelve_dms initial_state !! 10
     = Some (UserProfileValue 0)
  /\ getOptions sample_imports dm_heap props_twelve_dms initial_state !! 11
     = Some (UserProfileValue 11).
Proof.
  split_and!; [reflexivity | reflexivity | by_evaluation | by_evaluation
               | reflexivity | reflexivity].
Qed.

Lemma getOptions_recent_dms_first_witness :
  exists others,
    getOptions sample_imports dm_heap props_twelve_dms initial_state
    = (UserProfileValue <$> [1; 2; 3; 4; 5; 6; 7; 8; 9; 10]) ++ others
    /\ forall v, v ∈ others ->
         v ∉ UserProfileValue <$> [1; 2; 3; 4; 5; 6; 7; 8; 9; 10].
Proof.
  destruct (getOptions_recent_dms_first sample_imports dm_heap props_twelve_dms
              initial_state) as (others & Heq & _ & _ & _ & Hothers & _).
  exists others. split; [exact Heq|].
  intros v Hv. exact (proj1 (Hothers v Hv)).
Defined.

Lemma handleSubmit_commit_error_witness :
  values (set_values [1] initial_state) <> []
  /\ skipCommit plain_props = false
  /\ let w := (set_values [1] initial_state, initial_env) in
     let w1 := event (handleSubmit sample_heap plain_props) w in
     let w2 := event (addUsersToChannel_then plain_props
                        {| error := Some {| message := "x" |} |}) w1 in
     calls w1.2 = [addUsersToChannel "c1" ["u1"]]
     /\ saving w2.1 = false
     /\ inviteError w2.1 = Some "x"
     /\ values w2.1 = [1]
     /\ show w2.1 = true.
Proof.
  assert (values (set_values [1] initial_state) <> []) as H1 by discriminate.
  assert (skipCommit plain_props = false) as H2 by reflexivity.
  split_and!; [exact H1 | exact H2 |].
  pose proof (handleSubmit_commit_error sample_heap plain_props
                (set_values [1] initial_state, initial_env)
                {| error := Some {| message := "x" |} |} "x" H1 H2 eq_refl)
    as (Hc & Hs & He & Hv & Hsh & _).
  split_and!; [exact Hc | exact Hs | exact He | exact Hv | exact Hsh].
Defined.

(** C7, the claim as stated fails.  From a state in which the member is
    already selected twice, two calls leave it selected twice; two
    objects with the id of one member, added one after the other from the
    initial state, are both selected; and two calls with one object inside
    one callback, from the initial state, both read the empty
    [this.state.values] and select it twice. *)
Lemma addValue_twice_leaves_two_entries :
  (not_in_team sample_heap plain_props 1 = false
   /\ values (event (addValue sample_imports sample_heap plain_props (UserProfileValue 1))
                (event (addValue sample_imports sample_heap plain_props (UserProfileValue 1))
                   (state_selected_twice, initial_env))).1 = [1; 1]
   /\ occurrences 1
        (values (event (addValue sample_imports sample_heap plain_props (UserProfileValue 1))
                   (event (addValue sample_imports sample_heap plain_props (UserProfileValue 1))
                      (state_selected_twice, initial_env))).1) <> 1)
  /\ (not_in_team sample_heap plain_props 2 = false
      /\ UserProfile.id (user_at sample_heap 1) = UserProfile.id (user_at sample_heap 2)
      /\ values (event (addValue sample_imports sample_heap plain_props (UserProfileValue 2))
                   (event (addValue sample_imports sample_heap plain_props (UserProfileValue 1))
                      (initial_state, initial_env))).1 = [1; 2])
  /\ values (event (addValue sample_imports sample_heap plain_props (UserProfileValue 1) ;;
                    addValue sample_imports sample_heap plain_props (UserProfileValue 1))
               (initial_state, initial_env)).1 = [1; 1].
Proof.
  split_and!; try reflexivity.
  vm_compute. discriminate.
Qed.

Lemma addValue_member_twice_once_witness :
  not_in_team sample_heap plain_props 1 = false
  /\ occurrences 1 (values initial_state) <= 1
  /\ let w := (initial_state, initial_env) in
     let w1 := event (addValue sample_imports sample_heap plain_props (UserProfileValue 1)) w in
     let w2 := event (addValue sample_imports sample_heap plain_props (UserProfileValue 1)) w1 in
     w2 = w1 /\ occurrences 1 (values w2.1) = 1.
Proof.
  assert (not_in_team sample_heap plain_props 1 = false) as H1 by reflexivity.
  assert (occurrences 1 (values (initial_state, initial_env).1) <= 1) as H2
    by (vm_compute; lia).
  split_and!; [exact H1 | exact H2 |].
  destruct (addValue_member_twice_once sample_imports sample_heap plain_props
              (initial_state, initial_env) 1 H1) as (Hsame & _ & _ & Honce).
  split; [exact Hsame | exact (Honce H2)].
Defined.

Lemma addValue_not_in_team_witness :
  not_in_team sample_heap plain_props 4 = true
  /\ isGuest sample_imports (UserProfile.roles (user_at sample_heap 4)) = true
  /\ let w := (initial_state, initial_env) in
     let w' := event (addValue sample_imports sample_heap plain_props (UserProfileValue 4)) w in
     values w'.1 = [] /\ guestsNotInTeam w'.1 = [4] /\ usersNotInTeam w'.1 = [].
Proof.
  assert (not_in_team sample_heap plain_props 4 = true) as H1 by reflexivity.
  assert (isGuest sample_imports (UserProfile.roles (user_at sample_heap 4)) = true)
    as H2 by reflexivity.
  split_and!; [exact H1 | exact H2 |].
  pose proof (addValue_not_in_team sample_imports sample_heap plain_props
                (initial_state, initial_env) 4 H1) as (Hv & Hg & _).
  destruct (Hg H2) as (_ & Hg' & Hu).
  split_and!; [exact Hv | exact Hg' | exact Hu].
Defined.

Lemma initial_env_tracked : timers_tracked initial_env.
Proof. intros tm Htm. by apply elem_of_nil in Htm. Defined.

Lemma search_al_then_ali_dispatches_once_witness :
  timers_tracked initial_env
  /\ 50 < SEARCH_TIMEOUT_MILLISECONDS sample_imports
  /\ calls (advance plain_props 150
              (event (search sample_imports "ali")
                 (advance plain_props 50
                    (event (search sample_imports "al")
                       (initial_state, initial_env))))).2
     = search_dispatch plain_props "ali".
Proof.
  assert (50 < SEARCH_TIMEOUT_MILLISECONDS sample_imports) as H2 by (simpl; lia).
  split_and!; [exact initial_env_tracked | exact H2 |].
  pose proof (search_al_then_ali_dispatches_once sample_imports plain_props
                (initial_state, initial_env) 50 150 initial_env_tracked H2)
    as (_ & _ & Hcalls).
  exact Hcalls.
Defined.


(** ** More on the [Set] model and on sorting *)

Section MoreSetFacts.
Context {A : Type} `{EqDecision A}.
Implicit Types (s l : list A) (x : A).

(** The members a [Set] gains keep the order in which they were offered. *)
Lemma foldl_Set_add_sublist s l :
  exists rest, foldl Set_add s l = s ++ rest
               /\ rest `sublist_of` l
               /\ forall y, y ∈ rest -> y ∉ s.
Proof.
  revert s. induction l as [|x l IH]; intros s; simpl.
  - exists []. rewrite app_nil_r. split_and!; [done | done |].
    by intros y ?%elem_of_nil.
  - destruct (IH (Set_add s x)) as (rest & Heq & Hsub & Hrest).
    unfold Set_add in *. case_decide as Hx.
    + exists rest. split_and!; [done | by apply sublist_cons | done].
    + exists (x :: rest). split_and!.
      * rewrite Heq, <- app_assoc. done.
      * by apply sublist_skip.
      * intros y [->|Hy]%elem_of_cons; [done|].
        intros ?. apply (Hrest y Hy), elem_of_app. by left.
Qed.

Lemma new_Set_sublist l : new_Set l `sublist_of` l.
Proof.
  destruct (foldl_Set_add_sublist [] l) as (rest & Heq & Hsub & _).
  unfold new_Set. by rewrite Heq.
Qed.

Lemma foldl_Set_add_fresh s l :
  NoDup l -> (forall y, y ∈ l -> y ∉ s) -> foldl Set_add s l = s ++ l.
Proof.
  revert s. induction l as [|x l IH]; intros s Hnd Hfresh; simpl.
  - by rewrite app_nil_r.
  - apply NoDup_cons in Hnd as [Hx Hnd].
    unfold Set_add. rewrite decide_False by (apply Hfresh; by left).
    rewrite IH, <- app_assoc; [done | done |].
    intros y Hy [Hin| ->%list_elem_of_singleton]%elem_of_app; [|done].
    apply (Hfresh y); [by right | done].
Qed.

(** A [Set] of an array without repetition is that array. *)
Lemma new_Set_NoDup_id l : NoDup l -> new_Set l = l.
Proof.
  intros Hnd. unfold new_Set. rewrite foldl_Set_add_fresh; [done | done |].
  intros y _. apply not_elem_of_nil.
Qed.

Lemma StronglySorted_sublist (R : A -> A -> Prop) l k :
  l `sublist_of` k -> StronglySorted R k -> StronglySorted R l.
Proof.
  induction 1 as [|x l k Hsub IH|x l k Hsub IH]; intros Hk.
  - constructor.
  - apply StronglySorted_cons in Hk as [Hx Hk].
    apply StronglySorted_cons. split; [|by apply IH].
    apply Forall_forall. intros y Hy.
    rewrite Forall_forall in Hx. apply Hx. by eapply elem_of_sublist.
  - apply StronglySorted_cons in Hk as [_ Hk]. by apply IH.
Qed.

Section Sorting.
Variable cmp : A -> A -> Z.
Hypothesis cmp_total : forall a b, (cmp a b <= 0)%Z \/ (cmp b a <= 0)%Z.
Hypothesis cmp_trans : forall a b c,
  (cmp a b <= 0)%Z -> (cmp b c <= 0)%Z -> (cmp a c <= 0)%Z.

Lemma sort_insert_sorted x l :
  StronglySorted (fun a b => (cmp a b <= 0)%Z) l ->
  StronglySorted (fun a b => (cmp a b <= 0)%Z) (sort_insert cmp x l).
Proof.
  induction l as [|y l IH]; intros Hl; simpl.
  - repeat constructor.
  - apply StronglySorted_cons in Hl as [Hy Hl].
    destruct (cmp x y <=? 0)%Z eqn:Hxy.
    + apply Z.leb_le in Hxy. apply StronglySorted_cons. split.
      * constructor; [done|]. rewrite Forall_forall in Hy |- *.
        intros z Hz. eapply cmp_trans; [exact Hxy | by apply Hy].
      * by apply StronglySorted_cons.
    + apply Z.leb_gt in Hxy. apply StronglySorted_cons. split; [|by apply IH].
      rewrite sort_insert_Permutation. constructor; [|done].
      destruct (cmp_total x y); [lia | done].
Qed.

(** With a comparator that is total and transitive, [sort] returns its
    array in the comparator's order. *)
Lemma Array_sort_sorted l :
  StronglySorted (fun a b => (cmp a b <= 0)%Z) (Array_sort cmp l).
Proof.
  unfold Array_sort. induction l as [|x l IH]; simpl; [constructor|].
  by apply sort_insert_sorted.
Qed.
End Sorting.
End MoreSetFacts.

(** ** More on [getOptions] *)

Section MoreAggregationFacts.
Variable imp : Imports.
Variable h : Heap.
Implicit Types (p : Props) (s : State) (r : ref) (v : OptionValue).

(** The result is the deduplicated recent-DM users followed by a
    subsequence of the sorted groups and users. *)
Lemma getOptions_shape p s :
  exists others,
    getOptions imp h p s = new_Set (getOptions_dmUsers imp h p s) ++ others
    /\ others `sublist_of` getOptions_groupsAndUsers imp h p s
    /\ forall v, v ∈ others -> v ∉ getOptions_dmUsers imp h p s.
Proof.
  unfold getOptions, Array_from.
  pose proof (getOptions_dmUsers_length imp h p s) as Hlen.
  rewrite take_app, (take_ge (getOptions_dmUsers imp h p s))
    by (unfold MAX_USERS, USERS_FROM_DMS in *; lia).
  unfold new_Set. rewrite foldl_app.
  destruct (foldl_Set_add_sublist (foldl Set_add [] (getOptions_dmUsers imp h p s))
              (take (MAX_USERS - length (getOptions_dmUsers imp h p s))
                 (getOptions_groupsAndUsers imp h p s)))
    as (others & Heq & Hsub & Hfresh).
  exists others. split_and!; [done | |].
  - etrans; [exact Hsub | apply sublist_take].
  - intros v Hv Hdm. apply (Hfresh v Hv). by apply new_Set_elem.
Qed.

(** X1.  Below the cap nothing is cut: [getOptions] returns every group that
    matches the term, every [includeUsers] override and every user of the
    primary pool that passes the filters. *)
Theorem getOptions_under_cap p s :
  length (getOptions_dmUsers imp h p s)
    + length (getOptions_groupsAndUsers imp h p s) <= MAX_USERS ->
  (forall v, v ∈ getOptions imp h p s <->
             v ∈ getOptions_dmUsers imp h p s
             \/ v ∈ getOptions_groupsAndUsers imp h p s)
  /\ (forall g, g ∈ groups p ->
        groupMatchesTerm imp (group_at h g) (term s) = true ->
        GroupValue g ∈ getOptions imp h p s)
  /\ (forall r, r ∈ include_overrides p -> UserProfileValue r ∈ getOptions imp h p s)
  /\ (forall r,
        r ∈ profilesNotInCurrentChannel p ++ profilesInCurrentChannel p ->
        profileStartsWithTerm imp (user_at h r) (term s) = true ->
        UserProfile.delete_at (user_at h r) = 0%Z ->
        UserProfile.id (user_at h r) ∉ excludedAndNotInTeamUserIds h p ->
        UserProfileValue r ∈ getOptions imp h p s).
Proof.
  intros Hcap.
  assert (forall v, v ∈ getOptions imp h p s <->
                    v ∈ getOptions_dmUsers imp h p s
                    \/ v ∈ getOptions_groupsAndUsers imp h p s) as Hiff.
  { intros v. unfold getOptions, Array_from.
    rewrite new_Set_elem, take_ge by (rewrite length_app; lia).
    apply elem_of_app. }
  split_and!; [done | | |].
  - intros g Hg Hm. apply Hiff. right.
    apply getOptions_groupsAndUsers_elem. left.
    apply list_elem_of_fmap_2. unfold filterGroupsMatchingTerm.
    by apply list_elem_of_filter.
  - intros r Hr. apply Hiff. right.
    apply getOptions_groupsAndUsers_elem. right.
    unfold getOptions_users. unfold include_overrides in Hr.
    destruct (includeUsers p) as [inc|]; [|by apply elem_of_nil in Hr].
    apply elem_of_app. right. by apply list_elem_of_fmap_2.
  - intros r Hr Hm Hd Hx. apply Hiff. right.
    apply getOptions_groupsAndUsers_elem. right.
    assert (UserProfileValue r ∈ UserProfileValue <$>
              filterOutDeletedAndExcludedAndNotInTeamUsers h
                (filterProfilesStartingWithTerm imp h
                   (profilesNotInCurrentChannel p ++ profilesInCurrentChannel p) (term s))
                (excludedAndNotInTeamUserIds h p)) as Hin.
    { apply list_elem_of_fmap_2, filterOutDeleted_elem. split; [done|].
      unfold filterProfilesStartingWithTerm. by apply list_elem_of_filter. }
    unfold getOptions_users. destruct (includeUsers p); [|done].
    apply elem_of_app. by left.
Qed.

(** X2.  When the recent-DM users, the groups and the users hold no object
    twice, the [Set] removes nothing: the result is the first 25 of the
    recent-DM users followed by the sorted groups and users. *)
Theorem getOptions_without_repetition p s :
  NoDup (getOptions_dmUsers imp h p s ++ getOptions_groupsAndUsers imp h p s) ->
  getOptions imp h p s
    = take MAX_USERS (getOptions_dmUsers imp h p s ++ getOptions_groupsAndUsers imp h p s)
  /\ length (getOptions imp h p s)
     = min MAX_USERS (length (getOptions_dmUsers imp h p s)
                      + length (getOptions_groupsAndUsers imp h p s)).
Proof.
  intros Hnd.
  assert (getOptions imp h p s
          = take MAX_USERS (getOptions_dmUsers imp h p s
                            ++ getOptions_groupsAndUsers imp h p s)) as Heq.
  { unfold getOptions, Array_from. apply new_Set_NoDup_id.
    eapply sublist_NoDup; [exact Hnd | apply sublist_take]. }
  split; [done|]. by rewrite Heq, length_take, length_app.
Qed.

(** X3.  The recent-DM users open the result in the order of
    [profilesFromRecentDMs], and none of them is cut by the cap. *)
Theorem getOptions_recent_dms_in_pool_order p s :
  new_Set (getOptions_dmUsers imp h p s) `prefix_of` getOptions imp h p s
  /\ new_Set (getOptions_dmUsers imp h p s)
       `sublist_of` (UserProfileValue <$> profilesFromRecentDMs p)
  /\ forall v, v ∈ getOptions_dmUsers imp h p s -> v ∈ getOptions imp h p s.
Proof.
  destruct (getOptions_shape p s) as (others & Heq & _ & _).
  split_and!.
  - rewrite Heq. by exists others.
  - etrans; [apply new_Set_sublist|].
    unfold getOptions_dmUsers. apply fmap_sublist.
    etrans; [apply sublist_take|].
    etrans; [apply sublist_filter|]. apply sublist_filter.
  - intros v Hv. rewrite Heq. apply elem_of_app. left. by apply new_Set_elem.
Qed.

(** X4.  With a total and transitive [sortUsersAndGroups], the options that
    follow the recent-DM users are in the comparator's order. *)
Theorem getOptions_tail_sorted p s :
  (forall a b, (sortUsersAndGroups imp a b <= 0)%Z
               \/ (sortUsersAndGroups imp b a <= 0)%Z) ->
  (forall a b c, (sortUsersAndGroups imp a b <= 0)%Z ->
                 (sortUsersAndGroups imp b c <= 0)%Z ->
                 (sortUsersAndGroups imp a c <= 0)%Z) ->
  exists others,
    getOptions imp h p s = new_Set (getOptions_dmUsers imp h p s) ++ others
    /\ StronglySorted
         (fun a b => (sortUsersAndGroups imp (option_object h a) (option_object h b)
                      <= 0)%Z)
         others.
Proof.
  intros Htotal Htrans.
  destruct (getOptions_shape p s) as (others & Heq & Hsub & _).
  exists others. split; [done|].
  eapply StronglySorted_sublist; [exact Hsub|].
  unfold getOptions_groupsAndUsers.
  apply (Array_sort_sorted
           (fun a b => sortUsersAndGroups imp (option_object h a) (option_object h b))).
  - intros a b. apply Htotal.
  - intros a b c. apply Htrans.
Qed.

(** X5.  Every option returned matches the search term, unless it is an
    [includeUsers] override; a group is only ever filtered by the term. *)
Theorem getOptions_matches_term p s v :
  v ∈ getOptions imp h p s ->
  match v with
  | UserProfileValue r =>
      r ∈ include_overrides p
      \/ profileStartsWithTerm imp (user_at h r) (term s) = true
  | GroupValue g =>
      g ∈ groups p /\ groupMatchesTerm imp (group_at h g) (term s) = true
  end.
Proof.
  intros [Hdm|Hgu]%getOptions_elem.
  - apply getOptions_dmUsers_elem in Hdm as (r & -> & Hr).
    apply filterOutDeleted_elem in Hr as [_ Hr]. right.
    unfold filterProfilesStartingWithTerm in Hr.
    apply list_elem_of_filter in Hr. tauto.
  - apply getOptions_groupsAndUsers_elem in Hgu as [Hg|Hu].
    + apply list_elem_of_fmap in Hg as (g & -> & Hg).
      unfold filterGroupsMatchingTerm in Hg.
      apply list_elem_of_filter in Hg. tauto.
    + destruct v as [r|g]; [|by apply getOptions_users_no_group in Hu].
      apply getOptions_users_elem in Hu as [Hr|?]; [|by left].
      apply filterOutDeleted_elem in Hr as [_ Hr]. right.
      unfold filterProfilesStartingWithTerm in Hr.
      apply list_elem_of_filter in Hr. tauto.
Qed.

Lemma code_points_length x t : x ∈ code_points t -> String.length x = 1.
Proof.
  unfold code_points. rewrite list_elem_of_fmap. by intros (c & -> & _).
Qed.

(** X6.  With [excludeUsers] present and a user outside the team, the set
    built by [getOptions] holds the characters of the id of the first such
    user and nothing else: no id of another length is excluded, so a user
    of the primary pool with such an id is a candidate whenever it is
    active and matches the term. *)
Theorem excluded_set_is_first_id_characters p s first rest ex :
  profilesNotInCurrentTeam p = first :: rest ->
  excludeUsers p = Some ex ->
  excludedAndNotInTeamUserIds h p
    = new_Set (code_points (UserProfile.id (user_at h first)))
  /\ (forall x, x ∈ excludedAndNotInTeamUserIds h p -> String.length x = 1)
  /\ (forall r,
        r ∈ profilesNotInCurrentChannel p ++ profilesInCurrentChannel p ->
        profileStartsWithTerm imp (user_at h r) (term s) = true ->
        UserProfile.delete_at (user_at h r) = 0%Z ->
        String.length (UserProfile.id (user_at h r)) <> 1 ->
        UserProfileValue r ∈ getOptions_groupsAndUsers imp h p s).
Proof.
  intros Hnit Hex.
  assert (excludedAndNotInTeamUserIds h p
          = new_Set (code_points (UserProfile.id (user_at h first)))) as Heq.
  { unfold excludedAndNotInTeamUserIds. rewrite Hex, Hnit. reflexivity. }
  assert (forall x, x ∈ excludedAndNotInTeamUserIds h p -> String.length x = 1)
    as Hlen.
  { intros x. rewrite Heq, new_Set_elem. apply code_points_length. }
  split_and!; [done | done |].
  intros r Hr Hm Hd Hid.
  apply getOptions_groupsAndUsers_elem. right.
  assert (UserProfileValue r ∈ UserProfileValue <$>
            filterOutDeletedAndExcludedAndNotInTeamUsers h
              (filterProfilesStartingWithTerm imp h
                 (profilesNotInCurrentChannel p ++ profilesInCurrentChannel p) (term s))
              (excludedAndNotInTeamUserIds h p)) as Hin.
  { apply list_elem_of_fmap_2, filterOutDeleted_elem. split.
    - split; [done|]. intros Hx. by apply Hid, Hlen.
    - unfold filterProfilesStartingWithTerm. by apply list_elem_of_filter. }
  unfold getOptions_users. destruct (includeUsers p); [|done].
  apply elem_of_app. by left.
Qed.
End MoreAggregationFacts.

(** ** More on the selection handlers *)

Section MoreHandlerFacts.
Variable imp : Imports.
Variable h : Heap.
Variable p : Props.
Implicit Types (w : World) (r : ref) (s : State) (e : Env).

Lemma addValue_effect w v :
  let w' := event (addValue imp h p v) w in
  values w.1 `prefix_of` values w'.1
  /\ usersNotInTeam w.1 `prefix_of` usersNotInTeam w'.1
  /\ guestsNotInTeam w.1 `prefix_of` guestsNotInTeam w'.1
  /\ length (values w'.1) + length (usersNotInTeam w'.1)
       + length (guestsNotInTeam w'.1)
     <= 1 + (length (values w.1) + length (usersNotInTeam w.1)
             + length (guestsNotInTeam w.1))
  /\ (optionValues w'.1, term w'.1, show w'.1, saving w'.1, loadingUsers w'.1,
      inviteError w'.1)
     = (optionValues w.1, term w.1, show w.1, saving w.1, loadingUsers w.1,
        inviteError w.1)
  /\ w'.2 = w.2.
Proof.
  intros w'. subst w'. destruct v as [r|g].
  - rewrite addValue_user. destruct w as [s e]. simpl.
    destruct (not_in_team h p r);
      [destruct (isGuest imp (UserProfile.roles (user_at h r)))|];
      case_decide; simpl; rewrite ?length_app; simpl;
      split_and!; try done; try lia; by apply prefix_app_r.
  - destruct w as [s e]. simpl. split_and!; try done. lia.
Qed.

(** X7.  [addValue] never removes or reorders anything: each of the three
    arrays keeps what it had as a prefix, at most one entry is added in
    all, and no other field, timer or call is touched. *)
Theorem addValue_only_appends w v :
  let w' := event (addValue imp h p v) w in
  values w.1 `prefix_of` values w'.1
  /\ usersNotInTeam w.1 `prefix_of` usersNotInTeam w'.1
  /\ guestsNotInTeam w.1 `prefix_of` guestsNotInTeam w'.1
  /\ length (values w'.1) + length (usersNotInTeam w'.1)
       + length (guestsNotInTeam w'.1)
     <= 1 + (length (values w.1) + length (usersNotInTeam w.1)
             + length (guestsNotInTeam w.1))
  /\ (optionValues w'.1, term w'.1, show w'.1, saving w'.1, loadingUsers w'.1,
      inviteError w'.1)
     = (optionValues w.1, term w.1, show w.1, saving w.1, loadingUsers w.1,
        inviteError w.1)
  /\ w'.2 = w.2.
Proof. exact (addValue_effect w v). Qed.

(** X8.  [addValue] keeps each of the three arrays free of repeated objects. *)
Theorem addValue_keeps_NoDup w v :
  NoDup (values w.1) ->
  NoDup (usersNotInTeam w.1) ->
  NoDup (guestsNotInTeam w.1) ->
  let w' := event (addValue imp h p v) w in
  NoDup (values w'.1) /\ NoDup (usersNotInTeam w'.1) /\ NoDup (guestsNotInTeam w'.1).
Proof.
  intros Hv Hu Hg w'. subst w'. destruct v as [r|g].
  - rewrite addValue_user. destruct w as [s e]. simpl in *.
    destruct (not_in_team h p r);
      [destruct (isGuest imp (UserProfile.roles (user_at h r)))|];
      case_decide as Hin; simpl; split_and!; try done.
    all: apply NoDup_app; split_and!; [done | | apply NoDup_singleton].
    all: by intros y Hy ->%list_elem_of_singleton.
  - destruct w as [s e]. simpl in *. done.
Qed.

Lemma handleSubmit_empty w :
  values w.1 = [] -> event (handleSubmit h p) w = w.
Proof.
  destruct w as [s e]. simpl. intros Hv.
  unfold event, handleSubmit, bind, this_state. simpl. rewrite Hv. reflexivity.
Qed.

(** X9.  [handleSubmit] with nothing selected does nothing at all, whatever
    [skipCommit] and [onAddCallback] are. *)
Theorem handleSubmit_nothing_selected w :
  values w.1 = [] -> event (handleSubmit h p) w = w.
Proof. exact (handleSubmit_empty w). Qed.

Lemma handleSubmit_skip w :
  values w.1 <> [] ->
  skipCommit p = true ->
  onAddCallback p = true ->
  let w' := event (handleSubmit h p) w in
  calls w'.2 = calls w.2 ++
    [onAddCallback_call (values w.1);
     loadStatusesForProfilesList (profilesNotInCurrentChannel p);
     loadStatusesForProfilesList (profilesInCurrentChannel p)]
  /\ show w'.1 = false
  /\ saving w'.1 = false
  /\ inviteError w'.1 = None
  /\ values w'.1 = values w.1.
Proof.
  destruct w as [s e]. simpl. intros Hv Hskip Hcb.
  unfold event, handleSubmit, bind, this_state. simpl.
  rewrite length_fmap. destruct (values s) as [|v vs] eqn:Hvs; [done|].
  simpl. rewrite Hskip, Hcb. simpl. rewrite Hvs.
  split_and!; try done. by rewrite <- !app_assoc.
Qed.

(** X10.  With [skipCommit] and an [onAddCallback], [handleSubmit] hands the
    selection to the callback instead of committing it: the modal is
    hidden, [saving] and [inviteError] are reset, the statuses of both
    profile lists are reloaded and [addUsersToChannel] is not called. *)
Theorem handleSubmit_skip_commit w :
  values w.1 <> [] ->
  skipCommit p = true ->
  onAddCallback p = true ->
  let w' := event (handleSubmit h p) w in
  calls w'.2 = calls w.2 ++
    [onAddCallback_call (values w.1);
     loadStatusesForProfilesList (profilesNotInCurrentChannel p);
     loadStatusesForProfilesList (profilesInCurrentChannel p)]
  /\ show w'.1 = false
  /\ saving w'.1 = false
  /\ inviteError w'.1 = None
  /\ values w'.1 = values w.1.
Proof. exact (handleSubmit_skip w). Qed.

Lemma addUsersToChannel_then_success w result :
  error result = None ->
  event (addUsersToChannel_then p result) w =
  (set_show false (set_inviteError None (set_saving false w.1)),
   {| searchTimeoutId := searchTimeoutId w.2; timers := timers w.2;
      next_timer_id := next_timer_id w.2; now := now w.2;
      calls := calls w.2 ++
        [loadStatusesForProfilesList (profilesNotInCurrentChannel p);
         loadStatusesForProfilesList (profilesInCurrentChannel p)] |}).
Proof.
  destruct w as [s e]. intros Herr.
  unfold event, addUsersToChannel_then. rewrite Herr. simpl.
  by rewrite <- !app_assoc.
Qed.

(** X11.  A commit that succeeds: after [handleSubmit] and the resolution of
    [addUsersToChannel] without error the modal is hidden, [saving] is
    false, an earlier [inviteError] is gone, the selection is what it was
    and the statuses of both profile lists are reloaded. *)
Theorem handleSubmit_commit_success w result :
  values w.1 <> [] ->
  skipCommit p && onAddCallback p = false ->
  error result = None ->
  let w1 := event (handleSubmit h p) w in
  let w2 := event (addUsersToChannel_then p result) w1 in
  saving w1.1 = true
  /\ calls w2.2 = calls w.2 ++
       [addUsersToChannel (Channel.id (channel p))
          ((fun v => UserProfile.id (user_at h v)) <$> values w.1);
        loadStatusesForProfilesList (profilesNotInCurrentChannel p);
        loadStatusesForProfilesList (profilesInCurrentChannel p)]
  /\ show w2.1 = false
  /\ saving w2.1 = false
  /\ inviteError w2.1 = None
  /\ values w2.1 = values w.1.
Proof.
  intros Hv Hskip Herr w1 w2. subst w1 w2.
  rewrite (addUsersToChannel_then_success _ _ Herr).
  rewrite (handleSubmit_commit h p w Hv Hskip). simpl.
  split_and!; try done. by rewrite <- app_assoc.
Qed.

(** X12.  The label of [render] after a failed commit: the server's message,
    and no label at all when that message is empty. *)
Theorem failed_commit_label w result m :
  error result = Some {| message := m |} ->
  render_inviteError (event (addUsersToChannel_then p result) w).1
  = if decide (m = "") then None else Some m.
Proof.
  intros Herr. rewrite (addUsersToChannel_then_error p _ _ _ Herr).
  reflexivity.
Qed.
End MoreHandlerFacts.

(** ** The handlers of the team-invite banner *)

Section BannerFacts.
Variable imp : Imports.
Variable h : Heap.
Variable p : Props.
Implicit Types (w : World) (r : ref) (s : State) (e : Env) (l : list ref).

Lemma indexOf_from_bounds i l r :
  indexOf_from i l r = (-1)%Z
  \/ (i <= indexOf_from i l r < i + Z.of_nat (length l))%Z.
Proof.
  revert i. induction l as [|y l IH]; intros i; simpl; [by left|].
  case_decide; [right; lia|].
  destruct (IH (i + 1)%Z) as [->|?]; [by left | right; lia].
Qed.

Lemma remove_first_absent l r : r ∉ l -> remove_first r l = l.
Proof.
  induction l as [|y l IH]; intros Hr; simpl; [done|].
  apply not_elem_of_cons in Hr as [Hne Hr].
  rewrite decide_False by congruence. by rewrite IH.
Qed.

Lemma delete_indexOf_from i l r :
  (0 <= i)%Z ->
  indexOf_from i l r <> (-1)%Z ->
  delete (Z.to_nat (indexOf_from i l r - i)) l = remove_first r l.
Proof.
  revert i. induction l as [|y l IH]; intros i Hi Hfound; simpl in *; [done|].
  case_decide as Hy.
  - by rewrite Z.sub_diag.
  - destruct (indexOf_from_bounds (i + 1) l r) as [?|Hb]; [done|].
    replace (Z.to_nat (indexOf_from (i + 1) l r - i))
      with (S (Z.to_nat (indexOf_from (i + 1) l r - (i + 1)))) by lia.
    simpl. f_equal. apply IH; [lia | done].
Qed.

(** [indexOf] followed by [splice(index, 1)] removes the first occurrence
    and nothing else. *)
Lemma splice_indexOf l r :
  (if negb (indexOf l r =? -1)%Z then splice_one l (indexOf l r) else l)
  = remove_first r l.
Proof.
  destruct (indexOf l r =? -1)%Z eqn:Hidx; simpl.
  - symmetry. apply remove_first_absent. by apply indexOf_absent.
  - apply Z.eqb_neq in Hidx. unfold indexOf in *.
    destruct (indexOf_from_bounds 0 l r) as [?|Hb]; [done|].
    unfold splice_one. rewrite (proj2 (Z.ltb_ge _ _)) by lia.
    rewrite Z.min_l by lia.
    rewrite <- (delete_indexOf_from 0 l r) by done.
    by rewrite Z.sub_0_r.
Qed.

Lemma removeUsersFromValuesNotInTeam_loop_foldl profiles l :
  removeUsersFromValuesNotInTeam_loop profiles l
  = foldl (fun acc r => remove_first r acc) l profiles.
Proof.
  revert l. induction profiles as [|r profiles IH]; intros l; simpl; [done|].
  by rewrite splice_indexOf, IH.
Qed.

Lemma remove_first_sublist l r : remove_first r l `sublist_of` l.
Proof.
  induction l as [|y l IH]; simpl; [done|].
  case_decide; [by apply sublist_cons | by apply sublist_skip].
Qed.

Lemma remove_first_NoDup l r :
  NoDup l -> remove_first r l = filter (fun x => x <> r) l.
Proof.
  induction l as [|y l IH]; intros Hnd; simpl; [done|].
  apply NoDup_cons in Hnd as [Hy Hnd]. case_decide as Heq.
  - subst y. rewrite filter_cons_False by (intros Hne; by apply Hne).
    symmetry. apply filter_all. intros x Hx ->. done.
  - rewrite filter_cons_True by done. by rewrite IH.
Qed.

Lemma foldl_remove_first_NoDup profiles l :
  NoDup l ->
  foldl (fun acc r => remove_first r acc) l profiles
  = filter (fun x => x ∉ profiles) l.
Proof.
  revert l. induction profiles as [|r profiles IH]; intros l Hnd; simpl.
  - symmetry. apply filter_all. intros x _. apply not_elem_of_nil.
  - rewrite IH by (eapply sublist_NoDup; [exact Hnd | apply remove_first_sublist]).
    rewrite remove_first_NoDup by done.
    rewrite list_filter_filter. apply list_filter_iff.
    intros x. rewrite not_elem_of_cons. tauto.
Qed.

(** The updaters one [addValue] queues for a user, seen from any state
    they are later applied to: the selection gains the user when it is a
    team member not yet in [this.state.values]; the fields outside the
    three arrays never change. *)
Lemma addValue_user_queue s e r :
  exists q,
    addValue imp h p (UserProfileValue r) s e = (tt, q, e)
    /\ forall s0,
         values (foldl (fun s f => f s) s0 q)
         = values s0 ++ filter (fun x => not_in_team h p x = false /\ x ∉ values s) [r]
         /\ (optionValues (foldl (fun s f => f s) s0 q),
             term (foldl (fun s f => f s) s0 q),
             show (foldl (fun s f => f s) s0 q),
             saving (foldl (fun s f => f s) s0 q),
             loadingUsers (foldl (fun s f => f s) s0 q),
             inviteError (foldl (fun s f => f s) s0 q))
            = (optionValues s0, term s0, show s0, saving s0, loadingUsers s0,
               inviteError s0).
Proof.
  unfold addValue, bind, this_state. simpl. rewrite !indexOf_eqb.
  destruct (not_in_team h p r) eqn:Hteam.
  - assert (forall s0 : State,
              values s0 ++ filter (fun x => not_in_team h p x = false /\ x ∉ values s) [r]
              = values s0) as Hnone.
    { intros s0. rewrite filter_cons_False by (rewrite Hteam; intros [? _]; done).
      by rewrite filter_nil, app_nil_r. }
    destruct (isGuest imp (UserProfile.roles (user_at h r)));
      case_bool_decide; eexists; (split; [reflexivity|]);
      intros s0; rewrite Hnone; simpl; done.
  - case_bool_decide as Hin; eexists; (split; [reflexivity|]); intros s0; simpl.
    + rewrite filter_cons_True by done. by rewrite filter_nil.
    + rewrite filter_cons_False by tauto. by rewrite filter_nil, app_nil_r.
Qed.

Lemma removeInvitedUsers_loop_run profiles l s e :
  exists q,
    removeInvitedUsers_loop imp h p profiles l s e
    = (removeUsersFromValuesNotInTeam_loop profiles l, q, e)
    /\ forall s0,
         values (foldl (fun s f => f s) s0 q)
         = values s0
             ++ filter (fun x => not_in_team h p x = false /\ x ∉ values s) profiles
         /\ (optionValues (foldl (fun s f => f s) s0 q),
             term (foldl (fun s f => f s) s0 q),
             show (foldl (fun s f => f s) s0 q),
             saving (foldl (fun s f => f s) s0 q),
             loadingUsers (foldl (fun s f => f s) s0 q),
             inviteError (foldl (fun s f => f s) s0 q))
            = (optionValues s0, term s0, show s0, saving s0, loadingUsers s0,
               inviteError s0).
Proof.
  revert l. induction profiles as [|r profiles IH]; intros l; simpl.
  - exists []. split; [done|]. intros s0. simpl. by rewrite app_nil_r.
  - destruct (addValue_user_queue s e r) as (q1 & Hq1 & Hs1).
    destruct (IH (if negb (indexOf l r =? -1)%Z
                  then splice_one l (indexOf l r) else l)) as (q2 & Hq2 & Hs2).
    exists (q1 ++ q2). unfold bind. rewrite Hq1, Hq2. split; [done|].
    intros s0. rewrite foldl_app.
    destruct (Hs2 (foldl (fun s f => f s) s0 q1)) as [-> ->].
    destruct (Hs1 s0) as [-> ->].
    split; [|done].
    rewrite <- app_assoc. f_equal.
    change (r :: profiles) with ([r] ++ profiles). by rewrite filter_app.
Qed.

(** X13.  What [removeInvitedUsers] leaves behind.  The guests are emptied; with
    no object twice in [usersNotInTeam], exactly the given profiles leave
    it; each given profile that is a team member and not yet selected is
    appended to the selection, in the order given; a profile without team
    membership ends up in neither array. *)
Theorem removeInvitedUsers_result w profiles :
  NoDup profiles ->
  NoDup (usersNotInTeam w.1) ->
  let w' := event (removeInvitedUsers imp h p profiles) w in
  guestsNotInTeam w'.1 = []
  /\ usersNotInTeam w'.1 = filter (fun x => x ∉ profiles) (usersNotInTeam w.1)
  /\ values w'.1
     = values w.1
         ++ filter (fun x => not_in_team h p x = false /\ x ∉ values w.1) profiles
  /\ (optionValues w'.1, term w'.1, show w'.1, saving w'.1, loadingUsers w'.1,
      inviteError w'.1)
     = (optionValues w.1, term w.1, show w.1, saving w.1, loadingUsers w.1,
        inviteError w.1)
  /\ w'.2 = w.2.
Proof.
  intros _ Hnd w'. subst w'. destruct w as [s e]. simpl in *.
  destruct (removeInvitedUsers_loop_run profiles (usersNotInTeam s) s e)
    as (q & Hq & Hs).
  unfold event, removeInvitedUsers, bind, this_state. simpl. rewrite Hq. simpl.
  rewrite foldl_app. simpl.
  destruct (Hs s) as [Hv Hrest].
  rewrite removeUsersFromValuesNotInTeam_loop_foldl, foldl_remove_first_NoDup by done.
  split_and!; done.
Qed.

(** X14.  [removeUsersFromValuesNotInTeam] empties the guests and, with no
    object twice in [usersNotInTeam], takes exactly the given profiles out
    of it; the selection and everything else stay as they were.  Both
    banner handlers leave the same two arrays. *)
Theorem removeUsersFromValuesNotInTeam_result w profiles :
  NoDup (usersNotInTeam w.1) ->
  let w' := event (removeUsersFromValuesNotInTeam profiles) w in
  guestsNotInTeam w'.1 = []
  /\ usersNotInTeam w'.1 = filter (fun x => x ∉ profiles) (usersNotInTeam w.1)
  /\ values w'.1 = values w.1
  /\ (optionValues w'.1, term w'.1, show w'.1, saving w'.1, loadingUsers w'.1,
      inviteError w'.1)
     = (optionValues w.1, term w.1, show w.1, saving w.1, loadingUsers w.1,
        inviteError w.1)
  /\ w'.2 = w.2
  /\ usersNotInTeam w'.1
     = usersNotInTeam (event (removeInvitedUsers imp h p profiles) w).1
  /\ guestsNotInTeam w'.1
     = guestsNotInTeam (event (removeInvitedUsers imp h p profiles) w).1.
Proof.
  intros Hnd w'. subst w'. destruct w as [s e]. simpl in *.
  destruct (removeInvitedUsers_loop_run profiles (usersNotInTeam s) s e)
    as (q & Hq & Hs).
  unfold event, removeUsersFromValuesNotInTeam, removeInvitedUsers, bind, this_state.
  simpl. rewrite Hq. simpl. rewrite foldl_app. simpl.
  rewrite removeUsersFromValuesNotInTeam_loop_foldl, foldl_remove_first_NoDup by done.
  split_and!; done.
Qed.
End BannerFacts.

(** ** [componentDidUpdate] *)

Section UpdateFacts.
Variable imp : Imports.
Variable h : Heap.
Variable p : Props.
Implicit Types (s : State) (v : OptionValue).

(** [getOptions] reads nothing of the state but [term]. *)
Lemma getOptions_reads_term s s' :
  term s = term s' -> getOptions imp h p s = getOptions imp h p s'.
Proof.
  intros Ht.
  unfold getOptions, getOptions_dmUsers, getOptions_groupsAndUsers, getOptions_users.
  by rewrite Ht.
Qed.

Lemma isEqual_refl (a : list OptionValue) : isEqual h a a = true.
Proof. unfold isEqual. by apply bool_decide_eq_true_2. Qed.

Lemma componentDidUpdate_fixpoint s :
  let s1 := (componentDidUpdate imp h p s).2 in
  isEqual h (getOptions imp h p s1) (optionValues s1) = true
  /\ componentDidUpdate imp h p s1 = ([], s1)
  /\ s1 = set_optionValues (optionValues s1) s.
Proof.
  intros s1. subst s1. unfold componentDidUpdate.
  destruct (isEqual h (getOptions imp h p s) (optionValues s)) eqn:Heq; simpl.
  - rewrite Heq. simpl. split_and!; [done | done | by destruct s].
  - rewrite <- (getOptions_reads_term s (set_optionValues _ s)) by done.
    simpl. rewrite isEqual_refl. simpl. done.
Qed.

(** X15.  One pass of [componentDidUpdate] is enough.  After it the stored
    options compare equal to what [getOptions] returns, only
    [optionValues] has changed, and a second pass with the same props
    makes no call and leaves the state alone: the update that its
    [setState] causes does not cause another. *)
Theorem componentDidUpdate_settles s :
  let s1 := (componentDidUpdate imp h p s).2 in
  isEqual h (getOptions imp h p s1) (optionValues s1) = true
  /\ componentDidUpdate imp h p s1 = ([], s1)
  /\ s1 = set_optionValues (optionValues s1) s.
Proof. exact (componentDidUpdate_fixpoint s). Qed.

Lemma didUpdate_userIds_snoc (vs : list OptionValue) v :
  didUpdate_userIds h (vs ++ [v])
  = didUpdate_userIds h vs
      ++ match v with
         | UserProfileValue r => [UserProfile.id (user_at h r)]
         | GroupValue g =>
             match Group.member_ids (group_at h g) with
             | Some member_ids => member_ids
             | None => []
             end
         end.
Proof.
  unfold didUpdate_userIds. rewrite foldl_app. simpl.
  destruct v as [r|g]; [done|].
  destruct (Group.member_ids (group_at h g)); [done | by rewrite app_nil_r].
Qed.

Lemma didUpdate_userIds_elem (vs : list OptionValue) x :
  x ∈ didUpdate_userIds h vs <->
  (exists r, UserProfileValue r ∈ vs /\ x = UserProfile.id (user_at h r))
  \/ (exists g member_ids, GroupValue g ∈ vs
        /\ Group.member_ids (group_at h g) = Some member_ids /\ x ∈ member_ids).
Proof.
  induction vs as [|v vs IH] using rev_ind.
  - split; [by intros ?%elem_of_nil|].
    intros [(r & ?%elem_of_nil & _)|(g & m & ?%elem_of_nil & _)]; done.
  - rewrite didUpdate_userIds_snoc, elem_of_app, IH. clear IH.
    setoid_rewrite elem_of_app. setoid_rewrite list_elem_of_singleton.
    split.
    + intros [[(r & Hr & ->)|(g & m & Hg & Hm & Hx)]|Hv].
      * left. exists r. auto.
      * right. exists g, m. auto.
      * destruct v as [r|g].
        -- apply list_elem_of_singleton in Hv as ->. left. exists r. auto.
        -- destruct (Group.member_ids (group_at h g)) as [m|] eqn:Hm;
             [|by apply elem_of_nil in Hv].
           right. exists g, m. auto.
    + intros [(r & [Hr|Hr] & ->)|(g & m & [Hg|Hg] & Hm & Hx)].
      * left. left. exists r. auto.
      * subst v. right. by apply list_elem_of_singleton.
      * left. right. exists g, m. auto.
      * subst v. right. by rewrite Hm.
Qed.

(** X16.  The only call of [componentDidUpdate] is [getTeamMembersByIds], made
    at most once, for the team of the channel, never with an empty list
    and never when the options compare equal to the stored ones; its ids
    are those of the users returned by [getOptions] and the member ids of
    the groups returned that carry some. *)
Theorem componentDidUpdate_fetch s f :
  f ∈ (componentDidUpdate imp h p s).1 ->
  (componentDidUpdate imp h p s).1 = [f]
  /\ isEqual h (getOptions imp h p s) (optionValues s) = false
  /\ exists userIds,
       f = getTeamMembersByIds (Channel.team_id (channel p)) userIds
       /\ userIds <> []
       /\ forall x, x ∈ userIds <->
            (exists r, UserProfileValue r ∈ getOptions imp h p s
                       /\ x = UserProfile.id (user_at h r))
            \/ (exists g member_ids, GroupValue g ∈ getOptions imp h p s
                  /\ Group.member_ids (group_at h g) = Some member_ids
                  /\ x ∈ member_ids).
Proof.
  unfold componentDidUpdate.
  destruct (isEqual h (getOptions imp h p s) (optionValues s)); simpl;
    [by intros ?%elem_of_nil|].
  destruct (0 <? length (didUpdate_userIds h (getOptions imp h p s)))%nat eqn:Hlen;
    [|by intros ?%elem_of_nil].
  intros ->%list_elem_of_singleton. split_and!; [done | done |].
  eexists. split_and!; [reflexivity | |].
  - apply Nat.ltb_lt in Hlen. intros Hnil. rewrite Hnil in Hlen. simpl in Hlen. lia.
  - apply didUpdate_userIds_elem.
Qed.
End UpdateFacts.

(** ** The popover heading *)

(** X22.  [ProfilePopoverFullName] renders nothing exactly when [fullname] is
    empty; otherwise the text and the title are the full name, the shared
    icon shows exactly when [remoteId] is a non-empty string, and the test
    id tells the user names apart. *)
Theorem ProfilePopoverFullName_heading fullname username remoteId :
  (ProfilePopoverFullName fullname username remoteId = None <-> fullname = "")
  /\ (forall v, ProfilePopoverFullName fullname username remoteId = Some v ->
        span_text v = fullname /\ span_title v = fullname
        /\ (sharedIcon v = true <-> exists i, remoteId = Some i /\ i <> ""))
  /\ (forall fullname' username' remoteId' v v',
        ProfilePopoverFullName fullname username remoteId = Some v ->
        ProfilePopoverFullName fullname' username' remoteId' = Some v' ->
        data_testid v = data_testid v' -> username = username').
Proof.
  unfold ProfilePopoverFullName. split_and!.
  - case_decide; split; done.
  - intros v. case_decide; [done|]. intros [= <-]. simpl. split_and!; [done | done |].
    destruct remoteId as [i|]; [case_decide|].
    + subst i. split; [done | intros (i & [= <-] & ?); done].
    + split; [intros _; by exists i | done].
    + split; [done | intros (i & [=] & _)].
  - intros fullname' username' remoteId' v v'.
    repeat case_decide; try done. intros [= <-] [= <-]. simpl.
    intros Heq. by injection Heq.
Qed.

(** ** What holds whatever happens to the component *)

Section InvariantFacts.
Variable imp : Imports.
Variable h : Heap.
Variable p : Props.
Implicit Types (w : World) (i : Interaction) (c : Callback).

(** The banner handlers act on the state only, and not on [show]. *)
Lemma banner_frame w profiles :
  (event (removeInvitedUsers imp h p profiles) w).2 = w.2
  /\ show (event (removeInvitedUsers imp h p profiles) w).1 = show w.1
  /\ (event (removeUsersFromValuesNotInTeam profiles) w).2 = w.2
  /\ show (event (removeUsersFromValuesNotInTeam profiles) w).1 = show w.1.
Proof.
  destruct w as [s e].
  destruct (removeInvitedUsers_loop_run imp h p profiles (usersNotInTeam s) s e)
    as (q & Hq & Hs).
  unfold event, removeUsersFromValuesNotInTeam, removeInvitedUsers, bind, this_state.
  simpl. rewrite Hq. simpl. rewrite foldl_app. simpl.
  destruct (Hs s) as [_ [= _ _ Hshow _ _ _]]. split_and!; done.
Qed.

Lemma fire_due_fold (due : list Timer) w :
  exists new,
    foldl (fun w tm => event (search_timeout p (timer_term tm)) w) w due
    = (w.1, {| searchTimeoutId := searchTimeoutId w.2; timers := timers w.2;
               next_timer_id := next_timer_id w.2; now := now w.2;
               calls := calls w.2 ++ new |})
    /\ Forall (call_allowed p) new.
Proof.
  revert w. induction due as [|tm due IH]; intros [s e]; simpl.
  - exists []. rewrite app_nil_r. split; [by destruct e | done].
  - rewrite search_timeout_event. simpl.
    match goal with
    | |- context [foldl _ ?w0 due] => destruct (IH w0) as (new & -> & Hnew)
    end.
    simpl. eexists. rewrite <- app_assoc. split; [reflexivity|].
    apply Forall_app. split; [|done].
    case_decide; [done|]. unfold search_dispatch. repeat constructor.
Qed.

(** A millisecond only takes due timers away and only dispatches
    searches. *)
Lemma tick_effect w :
  exists new,
    tick p w
    = (w.1, {| searchTimeoutId := searchTimeoutId w.2;
               timers := filter (fun t => ~ timer_due t <= S (now w.2)) (timers w.2);
               next_timer_id := next_timer_id w.2; now := S (now w.2);
               calls := calls w.2 ++ new |})
    /\ Forall (call_allowed p) new.
Proof.
  unfold tick, fire_due. simpl.
  match goal with
  | |- context [foldl _ ?w0 ?due] => destruct (fire_due_fold due w0) as (new & -> & Hnew)
  end.
  by exists new.
Qed.

(** What one interaction may do to the environment and to [show]: it
    appends allowed calls, it leaves the timers alone or, for an input or a
    millisecond, leaves at most the tracked timer, and it never sets
    [show] to true. *)
Lemma interact_effect i w :
  timers_tracked w.2 ->
  length (timers w.2) <= 1 ->
  (exists new, calls (interact imp h p i w).2 = calls w.2 ++ new
               /\ Forall (call_allowed p) new)
  /\ timers_tracked (interact imp h p i w).2
  /\ length (timers (interact imp h p i w).2) <= 1
  /\ (show w.1 = false -> show (interact imp h p i w).1 = false).
Proof.
  intros Htr Hlen.
  assert (forall w', w'.2 = w.2 -> show w'.1 = show w.1 ->
            (exists new, calls w'.2 = calls w.2 ++ new
                         /\ Forall (call_allowed p) new)
            /\ timers_tracked w'.2
            /\ length (timers w'.2) <= 1
            /\ (show w.1 = false -> show w'.1 = false)) as Hframe.
  { intros w' -> ->. split_and!; try done. exists []. by rewrite app_nil_r. }
  destruct i as [c|profiles|profiles|]; simpl.
  - destruct c as [v|vs| | |result|t| | |]; simpl.
    + apply Hframe; [|destruct (addValue_effect imp h p w v)
                         as (_ & _ & _ & _ & [= _ _ Hs _ _ _] & _); exact Hs].
      by destruct (addValue_effect imp h p w v) as (_ & _ & _ & _ & _ & ?).
    + destruct w as [s e]. by apply Hframe.
    + destruct w as [s e]. by apply Hframe.
    + destruct (decide (values w.1 = [])) as [Hv|Hv].
      { rewrite handleSubmit_empty by done. by apply Hframe. }
      destruct (skipCommit p && onAddCallback p) eqn:Hskip.
      * apply andb_true_iff in Hskip as [Hs Hc].
        destruct (handleSubmit_skip h p w Hv Hs Hc) as (Hcalls & Hshow & _).
        assert ((event (handleSubmit h p) w).2
                = {| searchTimeoutId := searchTimeoutId w.2; timers := timers w.2;
                     next_timer_id := next_timer_id w.2; now := now w.2;
                     calls := calls (event (handleSubmit h p) w).2 |}) as ->.
        { destruct w as [s e]. unfold event, handleSubmit, bind, this_state.
          simpl in *. rewrite length_fmap. destruct (values s); [done|]. simpl.
          by rewrite Hs, Hc. }
        simpl. split_and!; [|done | done | done].
        eexists. split; [exact Hcalls|].
        repeat constructor; [done | by rewrite Hs, Hc].
      * rewrite (handleSubmit_commit h p w Hv Hskip). simpl.
        split_and!; [|done | done | done].
        eexists. split; [reflexivity|].
        repeat constructor; [|done].
        intros Hnil%fmap_nil_inv. done.
    + destruct (error result) as [err|] eqn:Herr.
      * rewrite (addUsersToChannel_then_error p _ _ _ Herr). by apply Hframe.
      * rewrite (addUsersToChannel_then_success p _ _ Herr). simpl.
        split_and!; [|done | done | done].
        eexists. split; [reflexivity|]. by repeat constructor.
    + pose proof (search_tracked imp w t Htr) as Htr'.
      rewrite search_event in *. simpl in *.
      rewrite (clear_tracked _ Htr) in *. simpl.
      split_and!; [|done | done | done].
      exists []. by rewrite app_nil_r.
    + destruct w as [s e]. by apply Hframe.
    + destruct w as [s e]. unfold event. simpl.
      split_and!; [|done | done | done].
      eexists. rewrite <- app_assoc. split; [reflexivity|]. by repeat constructor.
    + pose proof (tick_tracked p w Htr) as Htr'.
      destruct (tick_effect w) as (new & Heq & Hnew).
      rewrite Heq in *. simpl in *.
      split_and!; [by exists new | done | | done].
      etrans; [apply length_filter | done].
  - destruct (banner_frame w profiles) as (He & Hs & _ & _). by apply Hframe.
  - destruct (banner_frame w profiles) as (_ & _ & He & Hs). by apply Hframe.
  - apply (Hframe ((componentDidUpdate imp h p w.1).2, w.2)); [done|]. simpl.
    destruct (componentDidUpdate_fixpoint imp h p w.1) as (_ & _ & ->). done.
Qed.

Lemma reachable_by_interaction_invariant w :
  reachable_by_interaction imp h p w ->
  timers_tracked w.2
  /\ length (timers w.2) <= 1
  /\ Forall (call_allowed p) (calls w.2).
Proof.
  induction 1 as [|i w Hw (Htr & Hlen & Hcalls)].
  - simpl. split_and!; [by intros tm ?%elem_of_nil | lia | done].
  - destruct (interact_effect i w Htr Hlen)
      as ((new & Hnew & Hall) & Htr' & Hlen' & _).
    split_and!; [done | done |]. rewrite Hnew. by apply Forall_app.
Qed.

(** X17.  However the component got where it is, at most one search timer is
    pending, and it is the one [searchTimeoutId] names. *)
Theorem one_pending_search_timer w :
  reachable_by_interaction imp h p w ->
  length (timers w.2) <= 1
  /\ forall tm, tm ∈ timers w.2 -> timer_id tm = searchTimeoutId w.2.
Proof.
  intros (Htr & Hlen & _)%reachable_by_interaction_invariant. done.
Qed.

(** X18.  However the component got where it is, every [addUsersToChannel] it
    made was for the channel of the modal, with at least one id and
    without the host asking to skip the commit, and every
    [onAddCallback] it made was non-empty and asked for by the host. *)
Theorem only_allowed_calls w :
  reachable_by_interaction imp h p w ->
  forall made : Call, made ∈ calls w.2 -> call_allowed p made.
Proof.
  intros (_ & _ & Hcalls)%reachable_by_interaction_invariant.
  by apply Forall_forall.
Qed.

(** X19.  Once hidden, the modal is not shown again by anything the component
    does. *)
Theorem hidden_stays_hidden w i :
  reachable_by_interaction imp h p w ->
  show w.1 = false ->
  show (interact imp h p i w).1 = false.
Proof.
  intros (Htr & Hlen & _)%reachable_by_interaction_invariant Hshow.
  by destruct (interact_effect i w Htr Hlen) as (_ & _ & _ & Hs); apply Hs.
Qed.
End InvariantFacts.

(** ** More on the debounced [search] *)

Section MoreSearchFacts.
Variable imp : Imports.
Variable p : Props.
Implicit Types (w : World) (t : string).

(** One [search] from a component whose timers are tracked: its timer is
    the only one pending, and its lookups are dispatched once, when the
    delay has passed, unless the trimmed term is empty. *)
Lemma search_then_wait w t n :
  timers_tracked w.2 ->
  0 < SEARCH_TIMEOUT_MILLISECONDS imp ->
  calls (advance p n (event (search imp t) w)).2
  = calls w.2 ++
      (if decide (SEARCH_TIMEOUT_MILLISECONDS imp <= n) then
         if decide (trim t = "") then [] else search_dispatch p (trim t)
       else []).
Proof.
  intros Htr Hpos.
  rewrite (advance_single_timer p n (event (search imp t) w)
             {| timer_id := next_timer_id w.2;
                timer_due := now w.2 + SEARCH_TIMEOUT_MILLISECONDS imp;
                timer_term := trim t |}).
  - rewrite search_event. simpl.
    destruct (decide (SEARCH_TIMEOUT_MILLISECONDS imp <= n));
      [rewrite decide_True by lia | rewrite decide_False by lia]; done.
  - rewrite search_event. simpl. by rewrite (clear_tracked _ Htr).
  - rewrite search_event. simpl. lia.
Qed.

(** A burst of inputs, each less than the delay after the one before,
    dispatches nothing. *)
Lemma burst_quiet inputs w :
  timers_tracked w.2 ->
  (forall input, input ∈ inputs -> input.2 < SEARCH_TIMEOUT_MILLISECONDS imp) ->
  timers_tracked (burst imp p inputs w).2
  /\ calls (burst imp p inputs w).2 = calls w.2.
Proof.
  revert w. induction inputs as [|[t d] inputs IH]; intros w Htr Hgaps; simpl.
  - done.
  - assert (d < SEARCH_TIMEOUT_MILLISECONDS imp) as Hd
      by (apply (Hgaps (t, d)); by left).
    destruct (IH (advance p d (event (search imp t) w))) as [Htr' Hcalls].
    + by apply advance_tracked, search_tracked.
    + intros input Hin. apply Hgaps. by right.
    + unfold burst in *. simpl. split; [done|].
      rewrite Hcalls, search_then_wait by (done || lia).
      rewrite decide_False by lia. by rewrite app_nil_r.
Qed.

(** X20.  Debounce.  After any burst of inputs, each less than the delay after
    the one before, and a last input, nothing is dispatched until the
    delay has passed since the last input; then [searchProfiles] and the
    group search are dispatched once, with the trimmed last term, or not
    at all when that term is empty.  The term in the state is the trimmed
    last input. *)
Theorem search_burst_dispatches_last inputs t n w :
  timers_tracked w.2 ->
  0 < SEARCH_TIMEOUT_MILLISECONDS imp ->
  (forall input, input ∈ inputs -> input.2 < SEARCH_TIMEOUT_MILLISECONDS imp) ->
  let w1 := event (search imp t) (burst imp p inputs w) in
  term w1.1 = trim t
  /\ calls (advance p n w1).2
     = calls w.2 ++
         (if decide (SEARCH_TIMEOUT_MILLISECONDS imp <= n) then
            if decide (trim t = "") then [] else search_dispatch p (trim t)
          else []).
Proof.
  intros Htr Hpos Hgaps w1. subst w1.
  destruct (burst_quiet inputs w Htr Hgaps) as [Htr' Hcalls].
  split; [by rewrite search_event|].
  by rewrite search_then_wait, Hcalls.
Qed.

(** X21.  Two inputs at least the delay apart are both looked up, in order:
    a pause long enough lets the first search go out before the second
    replaces it. *)
Theorem search_spaced_inputs_both_dispatch w t1 t2 d n :
  timers_tracked w.2 ->
  0 < SEARCH_TIMEOUT_MILLISECONDS imp ->
  SEARCH_TIMEOUT_MILLISECONDS imp <= d ->
  calls (advance p n (event (search imp t2)
                        (advance p d (event (search imp t1) w)))).2
  = calls w.2
      ++ (if decide (trim t1 = "") then [] else search_dispatch p (trim t1))
      ++ (if decide (SEARCH_TIMEOUT_MILLISECONDS imp <= n) then
            if decide (trim t2 = "") then [] else search_dispatch p (trim t2)
          else []).
Proof.
  intros Htr Hpos Hd.
  rewrite search_then_wait by (done || by apply advance_tracked, search_tracked).
  rewrite search_then_wait by done.
  rewrite (decide_True (P := SEARCH_TIMEOUT_MILLISECONDS imp <= d)) by done.
  by rewrite <- app_assoc.
Qed.
End MoreSearchFacts.

(** ** The further properties on sample inputs *)

Lemma getOptions_under_cap_witness :
  length (getOptions_dmUsers sample_imports sample_heap props_pools initial_state)
    + length (getOptions_groupsAndUsers sample_imports sample_heap props_pools initial_state)
    <= MAX_USERS
  /\ UserProfileValue 1 ∈ getOptions sample_imports sample_heap props_pools initial_state.
Proof.
  assert (length (getOptions_dmUsers sample_imports sample_heap props_pools initial_state)
          + length (getOptions_groupsAndUsers sample_imports sample_heap props_pools
                      initial_state) <= MAX_USERS) as Hcap by (vm_compute; lia).
  split; [exact Hcap|].
  destruct (getOptions_under_cap sample_imports sample_heap props_pools initial_state Hcap)
    as (_ & _ & _ & Hprimary).
  apply Hprimary; [by_evaluation | reflexivity | reflexivity | by_evaluation].
Defined.

Lemma getOptions_without_repetition_witness :
  NoDup (getOptions_dmUsers sample_imports sample_heap props_pools initial_state
           ++ getOptions_groupsAndUsers sample_imports sample_heap props_pools initial_state)
  /\ length (getOptions sample_imports sample_heap props_pools initial_state) = 3.
Proof.
  assert (NoDup (getOptions_dmUsers sample_imports sample_heap props_pools initial_state
                   ++ getOptions_groupsAndUsers sample_imports sample_heap props_pools
                        initial_state)) as Hnd by by_evaluation.
  split; [exact Hnd|].
  destruct (getOptions_without_repetition sample_imports sample_heap props_pools
              initial_state Hnd) as [_ Hlen].
  exact Hlen.
Defined.

Lemma length_imports_total (a b : UserProfile.t + Group.t) :
  (sortUsersAndGroups length_imports a b <= 0)%Z
  \/ (sortUsersAndGroups length_imports b a <= 0)%Z.
Proof. simpl. lia. Defined.

Lemma length_imports_trans (a b c : UserProfile.t + Group.t) :
  (sortUsersAndGroups length_imports a b <= 0)%Z ->
  (sortUsersAndGroups length_imports b c <= 0)%Z ->
  (sortUsersAndGroups length_imports a c <= 0)%Z.
Proof. simpl. lia. Defined.

Lemma getOptions_tail_sorted_witness :
  exists others,
    getOptions length_imports sample_heap props_pools initial_state
    = new_Set (getOptions_dmUsers length_imports sample_heap props_pools initial_state)
        ++ others
    /\ StronglySorted
         (fun a b => (sortUsersAndGroups length_imports (option_object sample_heap a)
                        (option_object sample_heap b) <= 0)%Z)
         others.
Proof.
  exact (getOptions_tail_sorted length_imports sample_heap props_pools initial_state
           length_imports_total length_imports_trans).
Defined.

Lemma getOptions_matches_term_witness :
  UserProfileValue 1 ∈ getOptions sample_imports sample_heap props_pools initial_state
  /\ (1 ∈ include_overrides props_pools
      \/ profileStartsWithTerm sample_imports (user_at sample_heap 1) (term initial_state)
         = true).
Proof.
  assert (UserProfileValue 1
            ∈ getOptions sample_imports sample_heap props_pools initial_state)
    as Hin by by_evaluation.
  split; [exact Hin|].
  exact (getOptions_matches_term sample_imports sample_heap props_pools initial_state
           (UserProfileValue 1) Hin).
Defined.

Lemma excluded_set_is_first_id_characters_witness :
  profilesNotInCurrentTeam props_not_in_team = [0]
  /\ excludeUsers props_not_in_team = Some []
  /\ excludedAndNotInTeamUserIds sample_heap props_not_in_team = ["a"; "b"]
  /\ UserProfileValue 0
       ∈ getOptions_groupsAndUsers sample_imports sample_heap props_not_in_team
           initial_state.
Proof.
  destruct (excluded_set_is_first_id_characters sample_imports sample_heap
              props_not_in_team initial_state 0 [] [] eq_refl eq_refl)
    as (Hset & _ & Hcand).
  split_and!; [reflexivity | reflexivity | exact Hset |].
  apply Hcand; [by_evaluation | reflexivity | reflexivity | by vm_compute].
Defined.

Lemma addValue_keeps_NoDup_witness :
  NoDup (values state_banner)
  /\ NoDup (usersNotInTeam state_banner)
  /\ NoDup (guestsNotInTeam state_banner)
  /\ NoDup (values (event (addValue sample_imports sample_heap plain_props
                             (UserProfileValue 2)) (state_banner, initial_env)).1).
Proof.
  assert (NoDup (values (state_banner, initial_env).1)) as H1 by by_evaluation.
  assert (NoDup (usersNotInTeam (state_banner, initial_env).1)) as H2 by by_evaluation.
  assert (NoDup (guestsNotInTeam (state_banner, initial_env).1)) as H3 by by_evaluation.
  split_and!; [exact H1 | exact H2 | exact H3 |].
  destruct (addValue_keeps_NoDup sample_imports sample_heap plain_props
              (state_banner, initial_env) (UserProfileValue 2) H1 H2 H3) as [Hv _].
  exact Hv.
Defined.

Lemma handleSubmit_nothing_selected_witness :
  values initial_state = []
  /\ event (handleSubmit sample_heap props_skip_commit) (initial_state, initial_env)
     = (initial_state, initial_env).
Proof.
  split; [reflexivity|].
  exact (handleSubmit_nothing_selected sample_heap props_skip_commit
           (initial_state, initial_env) eq_refl).
Defined.

Lemma handleSubmit_skip_commit_witness :
  values state_banner <> []
  /\ skipCommit props_skip_commit = true
  /\ onAddCallback props_skip_commit = true
  /\ let w' := event (handleSubmit sample_heap props_skip_commit)
                 (state_banner, initial_env) in
     calls w'.2 = [onAddCallback_call [1]; loadStatusesForProfilesList [0; 1];
                   loadStatusesForProfilesList []]
     /\ show w'.1 = false.
Proof.
  assert (values (state_banner, initial_env).1 <> []) as H1 by discriminate.
  split_and!; [exact H1 | reflexivity | reflexivity |].
  destruct (handleSubmit_skip_commit sample_heap props_skip_commit
              (state_banner, initial_env) H1 eq_refl eq_refl)
    as (Hcalls & Hshow & _).
  split; [exact Hcalls | exact Hshow].
Defined.

Lemma handleSubmit_commit_success_witness :
  values state_banner <> []
  /\ skipCommit plain_props && onAddCallback plain_props = false
  /\ let w2 := event (addUsersToChannel_then plain_props {| error := None |})
                 (event (handleSubmit sample_heap plain_props)
                    (state_banner, initial_env)) in
     show w2.1 = false /\ saving w2.1 = false /\ inviteError w2.1 = None
     /\ values w2.1 = [1].
Proof.
  assert (values (state_banner, initial_env).1 <> []) as H1 by discriminate.
  split_and!; [exact H1 | reflexivity |].
  destruct (handleSubmit_commit_success sample_heap plain_props
              (state_banner, initial_env) {| error := None |} H1 eq_refl eq_refl)
    as (_ & _ & Hshow & Hsaving & Herr & Hv).
  split_and!; [exact Hshow | exact Hsaving | exact Herr | exact Hv].
Defined.

Lemma failed_commit_label_witness :
  render_inviteError
    (event (addUsersToChannel_then plain_props {| error := Some {| message := "" |} |})
       (state_banner, initial_env)).1 = None
  /\ render_inviteError
       (event (addUsersToChannel_then plain_props
                 {| error := Some {| message := "x" |} |})
          (state_banner, initial_env)).1 = Some "x".
Proof.
  split.
  - exact (failed_commit_label plain_props (state_banner, initial_env)
             {| error := Some {| message := "" |} |} "" eq_refl).
  - exact (failed_commit_label plain_props (state_banner, initial_env)
             {| error := Some {| message := "x" |} |} "x" eq_refl).
Defined.

Lemma removeInvitedUsers_result_witness :
  NoDup [0; 1; 2]
  /\ NoDup (usersNotInTeam state_banner)
  /\ let w' := event (removeInvitedUsers sample_imports sample_heap plain_props [0; 1; 2])
                 (state_banner, initial_env) in
     guestsNotInTeam w'.1 = [] /\ usersNotInTeam w'.1 = [4] /\ values w'.1 = [1; 2].
Proof.
  assert (NoDup [0; 1; 2]) as H1 by by_evaluation.
  assert (NoDup (usersNotInTeam (state_banner, initial_env).1)) as H2 by by_evaluation.
  split_and!; [exact H1 | exact H2 |].
  destruct (removeInvitedUsers_result sample_imports sample_heap plain_props
              (state_banner, initial_env) [0; 1; 2] H1 H2)
    as (Hg & Hu & Hv & _).
  split_and!; [exact Hg | exact Hu | exact Hv].
Defined.

Lemma removeUsersFromValuesNotInTeam_result_witness :
  NoDup (usersNotInTeam state_banner)
  /\ let w' := event (removeUsersFromValuesNotInTeam [0; 1; 2])
                 (state_banner, initial_env) in
     guestsNotInTeam w'.1 = [] /\ usersNotInTeam w'.1 = [4] /\ values w'.1 = [1].
Proof.
  assert (NoDup (usersNotInTeam (state_banner, initial_env).1)) as H2 by by_evaluation.
  split; [exact H2|].
  destruct (removeUsersFromValuesNotInTeam_result sample_imports sample_heap plain_props
              (state_banner, initial_env) [0; 1; 2] H2)
    as (Hg & Hu & Hv & _).
  split_and!; [exact Hg | exact Hu | exact Hv].
Defined.

Lemma componentDidUpdate_fetch_witness :
  getTeamMembersByIds "t1" ["u4"; "ab"; "u1"]
    ∈ (componentDidUpdate sample_imports sample_heap props_pools initial_state).1
  /\ (componentDidUpdate sample_imports sample_heap props_pools initial_state).1
     = [getTeamMembersByIds "t1" ["u4"; "ab"; "u1"]].
Proof.
  assert (getTeamMembersByIds "t1" ["u4"; "ab"; "u1"]
            ∈ (componentDidUpdate sample_imports sample_heap props_pools initial_state).1)
    as Hin by (vm_compute; by left).
  split; [exact Hin|].
  destruct (componentDidUpdate_fetch sample_imports sample_heap props_pools initial_state
              _ Hin) as (Hone & _).
  exact Hone.
Defined.

Lemma world_submitted_reachable :
  reachable_by_interaction sample_imports sample_heap plain_props world_submitted.
Proof. apply reachable_interact, reachable_interact, reachable_mounted. Defined.

Lemma world_hidden_reachable :
  reachable_by_interaction sample_imports sample_heap plain_props world_hidden.
Proof. apply reachable_interact, reachable_mounted. Defined.

Lemma one_pending_search_timer_witness :
  reachable_by_interaction sample_imports sample_heap plain_props world_submitted
  /\ length (timers world_submitted.2) <= 1.
Proof.
  split; [exact world_submitted_reachable|].
  destruct (one_pending_search_timer sample_imports sample_heap plain_props
              world_submitted world_submitted_reachable) as [Hlen _].
  exact Hlen.
Defined.

Lemma only_allowed_calls_witness :
  reachable_by_interaction sample_imports sample_heap plain_props world_submitted
  /\ addUsersToChannel "c1" ["u1"] ∈ calls world_submitted.2
  /\ call_allowed plain_props (addUsersToChannel "c1" ["u1"]).
Proof.
  assert (addUsersToChannel "c1" ["u1"] ∈ calls world_submitted.2) as Hin
    by (vm_compute; by left).
  split_and!; [exact world_submitted_reachable | exact Hin |].
  exact (only_allowed_calls sample_imports sample_heap plain_props world_submitted
           world_submitted_reachable _ Hin).
Defined.

Lemma hidden_stays_hidden_witness :
  reachable_by_interaction sample_imports sample_heap plain_props world_hidden
  /\ show world_hidden.1 = false
  /\ show (interact sample_imports sample_heap plain_props
             (callback (on_add (UserProfileValue 1))) world_hidden).1 = false.
Proof.
  split_and!; [exact world_hidden_reachable | reflexivity |].
  exact (hidden_stays_hidden sample_imports sample_heap plain_props world_hidden
           (callback (on_add (UserProfileValue 1))) world_hidden_reachable eq_refl).
Defined.

Lemma sample_burst_gaps (input : string * nat) :
  input ∈ [("a", 30); ("al", 99); ("ali", 0)] ->
  input.2 < SEARCH_TIMEOUT_MILLISECONDS sample_imports.
Proof.
  intros Hin.
  repeat match goal with
         | H : _ ∈ _ :: _ |- _ => apply elem_of_cons in H as [->|H]
         | H : _ ∈ [] |- _ => by apply elem_of_nil in H
         end; simpl; lia.
Defined.

Lemma search_burst_dispatches_last_witness :
  timers_tracked initial_env
  /\ 0 < SEARCH_TIMEOUT_MILLISECONDS sample_imports
  /\ calls (advance plain_props 100
              (event (search sample_imports " alic ")
                 (burst sample_imports plain_props
                    [("a", 30); ("al", 99); ("ali", 0)]
                    (initial_state, initial_env)))).2
     = search_dispatch plain_props "alic".
Proof.
  assert (0 < SEARCH_TIMEOUT_MILLISECONDS sample_imports) as Hpos by (simpl; lia).
  split_and!; [exact initial_env_tracked | exact Hpos |].
  destruct (search_burst_dispatches_last sample_imports plain_props
              [("a", 30); ("al", 99); ("ali", 0)] " alic " 100
              (initial_state, initial_env) initial_env_tracked Hpos sample_burst_gaps)
    as [_ Hcalls].
  exact Hcalls.
Defined.

Lemma search_spaced_inputs_both_dispatch_witness :
  timers_tracked initial_env
  /\ 0 < SEARCH_TIMEOUT_MILLISECONDS sample_imports
  /\ SEARCH_TIMEOUT_MILLISECONDS sample_imports <= 120
  /\ calls (advance plain_props 100
              (event (search sample_imports "bo")
                 (advance plain_props 120
                    (event (search sample_imports "al")
                       (initial_state, initial_env))))).2
     = search_dispatch plain_props "al" ++ search_dispatch plain_props "bo".
Proof.
  assert (0 < SEARCH_TIMEOUT_MILLISECONDS sample_imports) as Hpos by (simpl; lia).
  assert (SEARCH_TIMEOUT_MILLISECONDS sample_imports <= 120) as Hd by (simpl; lia).
  split_and!; [exact initial_env_tracked | exact Hpos | exact Hd |].
  exact (search_spaced_inputs_both_dispatch sample_imports plain_props
           (initial_state, initial_env) "al" "bo" 120 100
           initial_env_tracked Hpos Hd).
Defined.
